(** * Voice.js: one voice of a polyphonic synthesizer

    A shallow embedding of [src/Voice.js] and of the part of the Web Audio
    host that the class drives: the node store of an audio context, the
    connection list of its graph, and the automation timeline of an
    [AudioParam].

    Conventions of the model.
    - JavaScript numbers are exact rationals ([Q]); numeric statements are
      written with [==].  Rounding of binary floating point and the
      non-finite values are outside the model, and so is the clamping of a
      parameter to its nominal range: the value of a parameter is the one
      its timeline gives.
    - A method of the class is a computation of the monad [M]: it reads and
      writes a [World] (the receiver [this] and the audio context) and
      completes normally or throws; what was written before a throw stays
      written, as in JavaScript.
    - An audio node is referred to by its index in the node store of the
      context; nodes are never removed from the store (garbage collection
      is not modelled). *)

From Stdlib Require Import QArith Lqa.
From stdpp Require Import base option list strings gmap.

(** ** Completions and references *)

Inductive JSError := TypeError | InvalidStateError.

Inductive Completion (A : Type) :=
| Normal (a : A)
| Throw (e : JSError).
Arguments Normal {A} a.
Arguments Throw {A} e.

(** The value of a property that holds an object: [undefined] before any
    assignment, [null], or a reference into the node store. *)
Inductive JSRef := Undefined | Null | Obj (id : nat).

Definition is_obj (r : JSRef) : bool :=
  match r with Obj _ => true | _ => false end.

(** Members of an options object literal such as [{ gain: 0.5 }]. *)
Inductive JSValue := VNum (q : Q) | VStr (s : string).

(** ** Audio parameters and their automation timeline *)

Inductive AutomationEvent :=
| SetValue (v t : Q)        (* setValueAtTime(v, t) *)
| LinearRamp (v t : Q).     (* linearRampToValueAtTime(v, t) *)

Definition ev_time (e : AutomationEvent) : Q :=
  match e with SetValue _ t | LinearRamp _ t => t end.

(** [param_value] is the current-value slot read by the [value] getter;
    [param_events] is the timeline, kept in time order. *)
Record AudioParam := {
  param_value : Q;
  param_events : list AutomationEvent;
}.

Definition mk_param (v : Q) : AudioParam :=
  {| param_value := v; param_events := [] |}.

(** A new event goes after the events that are not later than it. *)
Fixpoint insert_event (e : AutomationEvent) (evs : list AutomationEvent)
  : list AutomationEvent :=
  match evs with
  | [] => [e]
  | e' :: rest =>
      if Qle_bool (ev_time e') (ev_time e)
      then e' :: insert_event e rest
      else e :: evs
  end.

(** [cancelScheduledValues(t)] drops the events at or after [t]. *)
Definition cancel_events (t : Q) (evs : list AutomationEvent)
  : list AutomationEvent :=
  List.filter (fun e => negb (Qle_bool t (ev_time e))) evs.

(** The value the timeline gives at time [t], walking the events from the
    last one passed ([v0] reached at [t0]): a set value holds from its time
    on, a ramp interpolates linearly from the previous event to its own. *)
Fixpoint value_from (v0 t0 : Q) (evs : list AutomationEvent) (t : Q) : Q :=
  match evs with
  | [] => v0
  | SetValue v te :: rest =>
      if Qle_bool te t then value_from v te rest t else v0
  | LinearRamp v te :: rest =>
      if Qle_bool te t then value_from v te rest t
      else (v0 + (v - v0) * ((t - t0) / (te - t0)))%Q
  end.

(** Before its first event a parameter holds its current value. *)
Definition value_at (p : AudioParam) (t : Q) : Q :=
  value_from (param_value p) t (param_events p) t.

(** ** Audio nodes *)

Inductive OscillatorType := sine | square | sawtooth | triangle.
Inductive BiquadFilterType := lowpass | highpass | bandpass.

(** The one handler the class installs: [this.dispose.bind(this)]. *)
Inductive EventHandler : Set := BoundDispose.

Record OscillatorNode := {
  osc_type : OscillatorType;
  osc_frequency : AudioParam;
  osc_detune : AudioParam;
  onended : option EventHandler;
  osc_startTime : option Q;
  osc_stopTime : option Q;
}.

Record GainNode := { gain : AudioParam }.

Record BiquadFilterNode := {
  bq_type : BiquadFilterType;
  bq_frequency : AudioParam;
  bq_detune : AudioParam;
  bq_Q : AudioParam;
  bq_gain : AudioParam;
}.

(** [Sink] stands for a node of the host that the class did not create,
    such as the destination of the context or a mixing bus. *)
Inductive AudioNode :=
| Osc (o : OscillatorNode)
| Gain (g : GainNode)
| Biquad (b : BiquadFilterNode)
| Sink.

Inductive ParamName := P_frequency | P_detune | P_gain | P_Q.

(** A connection leaves a node and enters either the signal input of a
    node or one of its parameters. *)
Inductive Destination := ToNode (id : nat) | ToParam (id : nat) (p : ParamName).

Definition dest_node (d : Destination) : nat :=
  match d with ToNode id | ToParam id _ => id end.

Definition Connection : Type := nat * Destination.

#[global] Instance ParamName_eq_dec : EqDecision ParamName.
Proof. solve_decision. Defined.
#[global] Instance Destination_eq_dec : EqDecision Destination.
Proof. solve_decision. Defined.

Definition get_param (n : AudioNode) (p : ParamName) : option AudioParam :=
  match n, p with
  | Osc o, P_frequency => Some (osc_frequency o)
  | Osc o, P_detune => Some (osc_detune o)
  | Gain g, P_gain => Some (gain g)
  | Biquad b, P_frequency => Some (bq_frequency b)
  | Biquad b, P_detune => Some (bq_detune b)
  | Biquad b, P_Q => Some (bq_Q b)
  | Biquad b, P_gain => Some (bq_gain b)
  | _, _ => None
  end.

Definition set_param (n : AudioNode) (p : ParamName) (a : AudioParam)
  : AudioNode :=
  match n, p with
  | Osc o, P_frequency =>
      Osc {| osc_type := osc_type o; osc_frequency := a;
             osc_detune := osc_detune o; onended := onended o;
             osc_startTime := osc_startTime o; osc_stopTime := osc_stopTime o |}
  | Osc o, P_detune =>
      Osc {| osc_type := osc_type o; osc_frequency := osc_frequency o;
             osc_detune := a; onended := onended o;
             osc_startTime := osc_startTime o; osc_stopTime := osc_stopTime o |}
  | Gain g, P_gain => Gain {| gain := a |}
  | Biquad b, P_frequency =>
      Biquad {| bq_type := bq_type b; bq_frequency := a;
                bq_detune := bq_detune b; bq_Q := bq_Q b; bq_gain := bq_gain b |}
  | Biquad b, P_detune =>
      Biquad {| bq_type := bq_type b; bq_frequency := bq_frequency b;
                bq_detune := a; bq_Q := bq_Q b; bq_gain := bq_gain b |}
  | Biquad b, P_Q =>
      Biquad {| bq_type := bq_type b; bq_frequency := bq_frequency b;
                bq_detune := bq_detune b; bq_Q := a; bq_gain := bq_gain b |}
  | Biquad b, P_gain =>
      Biquad {| bq_type := bq_type b; bq_frequency := bq_frequency b;
                bq_detune := bq_detune b; bq_Q := bq_Q b; bq_gain := a |}
  | _, _ => n
  end.

(** ** The audio context *)

Record BaseAudioContext := {
  currentTime : Q;
  nodes : list AudioNode;
  connections : list Connection;
}.

(** The class keeps a reference to the one context of the page. *)
Inductive ContextRef : Set := the_context.

(** ** The Voice object *)

Record Voice := {
  context : ContextRef;
  frequency : Q;
  maxAmp : Q;
  output : nat;
  attack : Q;
  decay : Q;
  sustain : Q;
  release : Q;
  osc : JSRef;
  osc2 : JSRef;
  osc2scale : JSRef;
  osc3 : JSRef;
  osc3scale : JSRef;
  ringModGain : JSRef;
  ringModModulator : JSRef;
  ampEnv : JSRef;
  lpFilter : JSRef;
}.

Record World := {
  this : Voice;
  ctx : BaseAudioContext;
}.

(** Assignment to one of the node-holding properties of [this]. *)
Inductive NodeField :=
| F_osc | F_osc2 | F_osc2scale | F_osc3 | F_osc3scale
| F_ringModGain | F_ringModModulator | F_ampEnv | F_lpFilter.

Definition set_ref (f : NodeField) (r : JSRef) (v : Voice) : Voice :=
  {| context := context v; frequency := frequency v; maxAmp := maxAmp v;
     output := output v; attack := attack v; decay := decay v;
     sustain := sustain v; release := release v;
     osc := match f with F_osc => r | _ => osc v end;
     osc2 := match f with F_osc2 => r | _ => osc2 v end;
     osc2scale := match f with F_osc2scale => r | _ => osc2scale v end;
     osc3 := match f with F_osc3 => r | _ => osc3 v end;
     osc3scale := match f with F_osc3scale => r | _ => osc3scale v end;
     ringModGain := match f with F_ringModGain => r | _ => ringModGain v end;
     ringModModulator :=
       match f with F_ringModModulator => r | _ => ringModModulator v end;
     ampEnv := match f with F_ampEnv => r | _ => ampEnv v end;
     lpFilter := match f with F_lpFilter => r | _ => lpFilter v end |}.

(** ** The monad of method bodies *)

Definition M (A : Type) : Type := World -> Completion A * World.

#[global] Instance M_ret : MRet M := fun A a w => (Normal a, w).

#[global] Instance M_bind : MBind M := fun A B f m w =>
  match m w with
  | (Normal a, w') => f a w'
  | (Throw e, w') => (Throw e, w')
  end.

Definition throw {A : Type} (e : JSError) : M A := fun w => (Throw e, w).

Definition get_ctx : M BaseAudioContext := fun w => (Normal (ctx w), w).

Definition put_ctx (c : BaseAudioContext) : M unit :=
  fun w => (Normal tt, {| this := this w; ctx := c |}).

Definition this_get {A : Type} (f : Voice -> A) : M A :=
  fun w => (Normal (f (this w)), w).

Definition this_set (f : NodeField) (r : JSRef) : M unit :=
  fun w => (Normal tt, {| this := set_ref f r (this w); ctx := ctx w |}).

(** Reading a property of [undefined] or [null] throws a TypeError. *)
Definition deref (r : JSRef) : M nat :=
  match r with
  | Obj id => mret id
  | _ => throw TypeError
  end.

Definition this_ref (f : Voice -> JSRef) : M nat :=
  r ← this_get f; deref r.

(** ** Host primitives *)

Definition get_currentTime : M Q :=
  c ← get_ctx; mret (currentTime c).

Definition new_node (n : AudioNode) : M nat :=
  c ← get_ctx;
  put_ctx {| currentTime := currentTime c; nodes := nodes c ++ [n];
             connections := connections c |};;
  mret (length (nodes c)).

Definition get_node (id : nat) : M AudioNode :=
  c ← get_ctx;
  match nodes c !! id with
  | Some n => mret n
  | None => throw TypeError
  end.

Definition put_node (id : nat) (n : AudioNode) : M unit :=
  c ← get_ctx;
  put_ctx {| currentTime := currentTime c; nodes := <[id := n]> (nodes c);
             connections := connections c |}.

(** [node.p]: a node without that parameter yields [undefined], and the
    method call on it throws. *)
Definition param_get (id : nat) (p : ParamName) : M AudioParam :=
  n ← get_node id;
  match get_param n p with
  | Some a => mret a
  | None => throw TypeError
  end.

Definition param_put (id : nat) (p : ParamName) (a : AudioParam) : M unit :=
  n ← get_node id; put_node id (set_param n p a).

Definition setValueAtTime (id : nat) (p : ParamName) (v t : Q) : M unit :=
  a ← param_get id p;
  param_put id p {| param_value := param_value a;
                    param_events := insert_event (SetValue v t) (param_events a) |}.

(** A ramp with no event before it starts from the current value at the
    time of the call. *)
Definition has_preceding (t : Q) (evs : list AutomationEvent) : bool :=
  existsb (fun e => Qle_bool (ev_time e) t) evs.

Definition linearRampToValueAtTime (id : nat) (p : ParamName) (v t : Q)
  : M unit :=
  a ← param_get id p;
  now ← get_currentTime;
  let evs :=
    if has_preceding t (param_events a) then param_events a
    else insert_event (SetValue (param_value a) now) (param_events a) in
  param_put id p {| param_value := param_value a;
                    param_events := insert_event (LinearRamp v t) evs |}.

Definition cancelScheduledValues (id : nat) (p : ParamName) (t : Q) : M unit :=
  a ← param_get id p;
  param_put id p {| param_value := param_value a;
                    param_events := cancel_events t (param_events a) |}.

(** The [value] getter and setter of a parameter. *)
Definition get_value (id : nat) (p : ParamName) : M Q :=
  a ← param_get id p; mret (param_value a).

Definition set_value (id : nat) (p : ParamName) (v : Q) : M unit :=
  a ← param_get id p;
  now ← get_currentTime;
  param_put id p {| param_value := v;
                    param_events := insert_event (SetValue v now) (param_events a) |}.

(** [src.connect(d)]: a connection that exists already is not added again. *)
Definition add_connection (e : Connection) (cs : list Connection)
  : list Connection :=
  if decide (e ∈ cs) then cs else cs ++ [e].

Definition connect (src : nat) (d : Destination) : M unit :=
  c ← get_ctx;
  put_ctx {| currentTime := currentTime c; nodes := nodes c;
             connections := add_connection (src, d) (connections c) |}.

(** [src.disconnect()]: every outgoing connection of [src] is removed. *)
Definition disconnect (src : nat) : M unit :=
  c ← get_ctx;
  put_ctx {| currentTime := currentTime c; nodes := nodes c;
             connections :=
               List.filter (fun e => negb (Nat.eqb (fst e) src)) (connections c) |}.

Definition get_osc (id : nat) : M OscillatorNode :=
  n ← get_node id;
  match n with
  | Osc o => mret o
  | _ => throw TypeError
  end.

Definition set_type (id : nat) (ty : OscillatorType) : M unit :=
  o ← get_osc id;
  put_node id (Osc {| osc_type := ty; osc_frequency := osc_frequency o;
                      osc_detune := osc_detune o; onended := onended o;
                      osc_startTime := osc_startTime o;
                      osc_stopTime := osc_stopTime o |}).

Definition set_onended (id : nat) (h : EventHandler) : M unit :=
  o ← get_osc id;
  put_node id (Osc {| osc_type := osc_type o; osc_frequency := osc_frequency o;
                      osc_detune := osc_detune o; onended := Some h;
                      osc_startTime := osc_startTime o;
                      osc_stopTime := osc_stopTime o |}).

(** [osc.start()] with no argument starts at the current time; a second
    call throws. *)
Definition osc_start (id : nat) : M unit :=
  o ← get_osc id;
  now ← get_currentTime;
  match osc_startTime o with
  | Some _ => throw InvalidStateError
  | None =>
      put_node id (Osc {| osc_type := osc_type o;
                          osc_frequency := osc_frequency o;
                          osc_detune := osc_detune o; onended := onended o;
                          osc_startTime := Some now;
                          osc_stopTime := osc_stopTime o |})
  end.

(** [osc.stop(t)] throws on a node that was never started; a later call
    replaces the stop time. *)
Definition osc_stop (id : nat) (t : Q) : M unit :=
  o ← get_osc id;
  match osc_startTime o with
  | None => throw InvalidStateError
  | Some _ =>
      put_node id (Osc {| osc_type := osc_type o;
                          osc_frequency := osc_frequency o;
                          osc_detune := osc_detune o; onended := onended o;
                          osc_startTime := osc_startTime o;
                          osc_stopTime := Some t |})
  end.

(** Node constructors.  An options object is read member by member under
    the names of the constructor's dictionary ([GainOptions] has [gain];
    [BiquadFilterOptions] has [type], [Q], [detune], [frequency], [gain]);
    a member under any other name is not read, and an absent member takes
    its default. *)
Definition opt_num (opts : gmap string JSValue) (k : string) (d : Q) : M Q :=
  match opts !! k with
  | None => mret d
  | Some (VNum q) => mret q
  | Some (VStr _) => throw TypeError
  end.

Definition opt_filter_type (opts : gmap string JSValue) : M BiquadFilterType :=
  match opts !! "type" with
  | None => mret lowpass
  | Some (VStr s) =>
      if String.eqb s "lowpass" then mret lowpass
      else if String.eqb s "highpass" then mret highpass
      else if String.eqb s "bandpass" then mret bandpass
      else throw TypeError
  | Some (VNum _) => throw TypeError
  end.

Definition new_OscillatorNode : M nat :=
  new_node (Osc {| osc_type := sine; osc_frequency := mk_param 440;
                   osc_detune := mk_param 0; onended := None;
                   osc_startTime := None; osc_stopTime := None |}).

Definition new_GainNode (opts : gmap string JSValue) : M nat :=
  g ← opt_num opts "gain" 1;
  new_node (Gain {| gain := mk_param g |}).

Definition new_BiquadFilterNode (opts : gmap string JSValue) : M nat :=
  ty ← opt_filter_type opts;
  q ← opt_num opts "Q" 1;
  d ← opt_num opts "detune" 0;
  f ← opt_num opts "frequency" 350;
  g ← opt_num opts "gain" 0;
  new_node (Biquad {| bq_type := ty; bq_frequency := mk_param f;
                      bq_detune := mk_param d; bq_Q := mk_param q;
                      bq_gain := mk_param g |}).

(** ** The class *)

(** [constructor(ctx, freq, maxAmp, out)]: the object the body builds.  The
    node-holding properties are not assigned, so they read [undefined]. *)
Definition constructor (c : ContextRef) (freq maxAmp_ : Q) (out : nat) : Voice :=
  {| context := c; frequency := freq; maxAmp := maxAmp_; output := out;
     (* ADSR envelope times in seconds *)
     attack := 0.02; decay := 0.01; sustain := 0.5; release := 0.5;
     osc := Undefined; osc2 := Undefined; osc2scale := Undefined;
     osc3 := Undefined; osc3scale := Undefined; ringModGain := Undefined;
     ringModModulator := Undefined; ampEnv := Undefined;
     lpFilter := Undefined |}.

(** [new Voice(ctx, freq, maxAmp, out)]: the new object becomes the
    receiver of the calls that follow. *)
Definition new_Voice (c : ContextRef) (freq maxAmp_ : Q) (out : nat) : M unit :=
  fun w => (Normal tt, {| this := constructor c freq maxAmp_ out; ctx := ctx w |}).

Definition start : M unit :=
  now ← get_currentTime;
  (* Primary sine oscillator *)
  n ← new_OscillatorNode; this_set F_osc (Obj n);;
  o ← this_ref osc; f ← this_get frequency;
  setValueAtTime o P_frequency f now;;
  o ← this_ref osc; set_onended o BoundDispose;;
  (* Sawtooth oscillator at 2x frequency *)
  n ← new_OscillatorNode; this_set F_osc2 (Obj n);;
  o ← this_ref osc2; set_type o sawtooth;;
  o ← this_ref osc2; f ← this_get frequency;
  setValueAtTime o P_frequency (f * 2) now;;
  n ← new_GainNode {[ "gain" := VNum 0.5 ]}; this_set F_osc2scale (Obj n);;
  (* Oscillator at 0.5x frequency *)
  n ← new_OscillatorNode; this_set F_osc3 (Obj n);;
  o ← this_ref osc3; set_type o triangle;;
  o ← this_ref osc3; f ← this_get frequency;
  setValueAtTime o P_frequency (f / 2) now;;
  n ← new_GainNode {[ "gain" := VNum 1.0 ]}; this_set F_osc3scale (Obj n);;
  (* Ring modulation setup *)
  n ← new_GainNode {[ "gain" := VNum 0 ]}; this_set F_ringModGain (Obj n);;
  n ← new_OscillatorNode; this_set F_ringModModulator (Obj n);;
  o ← this_ref ringModModulator; f ← this_get frequency;
  set_value o P_frequency (f / 128);;
  (* Envelope-controlled output gain *)
  n ← new_GainNode {[ "gain" := VNum 0 ]}; this_set F_ampEnv (Obj n);;
  e ← this_ref ampEnv; setValueAtTime e P_gain 0 now;;
  f ← this_get frequency;
  n ← new_BiquadFilterNode
        (list_to_map [("type", VStr "lowpass");
                      ("frequency", VNum (f + 2000));
                      ("q", VNum 2)]);
  this_set F_lpFilter (Obj n);;
  (* Connect modulator to the gain of the ringModGain node *)
  m ← this_ref ringModModulator; g ← this_ref ringModGain;
  connect m (ToParam g P_gain);;
  (* Connect oscillators to ring modulator *)
  s ← this_ref osc; d ← this_ref ringModGain; connect s (ToNode d);;
  s ← this_ref osc2; d ← this_ref osc2scale; connect s (ToNode d);;
  s ← this_ref osc2scale; d ← this_ref ringModGain; connect s (ToNode d);;
  s ← this_ref osc3; d ← this_ref osc3scale; connect s (ToNode d);;
  s ← this_ref osc3scale; d ← this_ref ringModGain; connect s (ToNode d);;
  (* Route ring modulated signal to amplitude envelope and then to output *)
  s ← this_ref ringModGain; d ← this_ref ampEnv; connect s (ToNode d);;
  s ← this_ref ampEnv; d ← this_ref lpFilter; connect s (ToNode d);;
  s ← this_ref lpFilter; d ← this_get output; connect s (ToNode d);;
  (* Start all oscillators *)
  o ← this_ref ringModModulator; osc_start o;;
  o ← this_ref osc; osc_start o;;
  o ← this_ref osc2; osc_start o;;
  o ← this_ref osc3; osc_start o;;
  (* Apply ADSR envelope: Attack, Decay, Sustain *)
  e ← this_ref ampEnv; m ← this_get maxAmp; a ← this_get attack;
  linearRampToValueAtTime e P_gain m (now + a);;
  e ← this_ref ampEnv; s ← this_get sustain; m ← this_get maxAmp;
  a ← this_get attack; d ← this_get decay;
  linearRampToValueAtTime e P_gain (s * m) (now + a + d).

Definition stop : M unit :=
  now ← get_currentTime;
  (* Stop scheduled ramps and avoid clicks/pops *)
  e ← this_ref ampEnv; cancelScheduledValues e P_gain now;;
  e ← this_ref ampEnv; e' ← this_ref ampEnv; v ← get_value e' P_gain;
  setValueAtTime e P_gain v now;;
  (* Release phase: ramp gain to 0 *)
  e ← this_ref ampEnv; r ← this_get release;
  linearRampToValueAtTime e P_gain 0 (now + r);;
  (* Stop all oscillators slightly after release completes *)
  r ← this_get release;
  let stopTime := (now + r + 0.01)%Q in
  o ← this_ref osc; osc_stop o stopTime;;
  o ← this_ref osc2; osc_stop o stopTime;;
  o ← this_ref osc3; osc_stop o stopTime;;
  o ← this_ref ringModModulator; osc_stop o stopTime.

Definition dispose : M unit :=
  (* Disconnect signal paths *)
  n ← this_ref osc; disconnect n;;
  n ← this_ref osc2; disconnect n;;
  n ← this_ref osc3; disconnect n;;
  n ← this_ref osc2scale; disconnect n;;
  n ← this_ref osc3scale; disconnect n;;
  n ← this_ref ringModGain; disconnect n;;
  n ← this_ref ringModModulator; disconnect n;;
  n ← this_ref ampEnv; disconnect n;;
  (* Null out references for garbage collection *)
  this_set F_osc Null;;
  this_set F_osc2 Null;;
  this_set F_osc3 Null;;
  this_set F_osc2scale Null;;
  this_set F_osc3scale Null;;
  this_set F_ringModGain Null;;
  this_set F_ringModModulator Null;;
  this_set F_ampEnv Null.


(** ** The host's side of the life cycle *)

(** Rendering up to time [t] moves the clock and brings the current-value
    slot of every parameter to what its timeline gives at [t]. *)
Definition tick_param (t : Q) (a : AudioParam) : AudioParam :=
  {| param_value := value_at a t; param_events := param_events a |}.

Definition tick_node (t : Q) (n : AudioNode) : AudioNode :=
  match n with
  | Osc o =>
      Osc {| osc_type := osc_type o;
             osc_frequency := tick_param t (osc_frequency o);
             osc_detune := tick_param t (osc_detune o);
             onended := onended o; osc_startTime := osc_startTime o;
             osc_stopTime := osc_stopTime o |}
  | Gain g => Gain {| gain := tick_param t (gain g) |}
  | Biquad b =>
      Biquad {| bq_type := bq_type b;
                bq_frequency := tick_param t (bq_frequency b);
                bq_detune := tick_param t (bq_detune b);
                bq_Q := tick_param t (bq_Q b);
                bq_gain := tick_param t (bq_gain b) |}
  | Sink => Sink
  end.

Definition render_until (t : Q) : M unit :=
  c ← get_ctx;
  if Qle_bool (currentTime c) t
  then put_ctx {| currentTime := t; nodes := map (tick_node t) (nodes c);
                  connections := connections c |}
  else mret tt.

Definition run_handler (h : EventHandler) : M unit :=
  match h with BoundDispose => dispose end.

(** The [ended] event of an oscillator: once its stop time is reached the
    host calls the handler, if one is installed. *)
Definition fire_ended (id : nat) : M unit :=
  o ← get_osc id;
  now ← get_currentTime;
  match osc_stopTime o, onended o with
  | Some ts, Some h => if Qle_bool ts now then run_handler h else mret tt
  | _, _ => mret tt
  end.

(** ** What is observed of a voice and of the graph *)

(** The node references a voice holds. *)
Definition node_fields (v : Voice) : list JSRef :=
  [osc v; osc2 v; osc2scale v; osc3 v; osc3scale v; ringModGain v;
   ringModModulator v; ampEnv v; lpFilter v].

Definition nodes_held (v : Voice) : list nat :=
  omap (fun r => match r with Obj id => Some id | _ => None end)
       (node_fields v).

Definition dest_eqb (d d' : Destination) : bool :=
  match d, d' with
  | ToNode a, ToNode b => Nat.eqb a b
  | ToParam a p, ToParam b q => Nat.eqb a b && bool_decide (p = q)
  | _, _ => false
  end.

(** The connections that leave a node, and those that enter a destination. *)
Definition successors (h : BaseAudioContext) (src : nat) : list Destination :=
  map snd (List.filter (fun e : Connection => Nat.eqb (fst e) src)
                       (connections h)).

Definition inputs_of (h : BaseAudioContext) (d : Destination) : list nat :=
  map fst (List.filter (fun e : Connection => dest_eqb (snd e) d)
                       (connections h)).

Definition in_degree (h : BaseAudioContext) (id : nat) : nat :=
  length (inputs_of h (ToNode id)).

(** A signal path: each node feeds the signal input of the next. *)
Fixpoint is_path (h : BaseAudioContext) (l : list nat) : Prop :=
  match l with
  | a :: (b :: _) as tl => (a, ToNode b) ∈ connections h /\ is_path h tl
  | _ => True
  end.

(** Every connection of the graph joins nodes of the store.  The host only
    connects nodes that exist, so this holds of every graph it builds; in
    particular no connection can mention a node that is yet to be
    created. *)
Definition closed_graph (h : BaseAudioContext) : Prop :=
  Forall (fun e : Connection =>
            (fst e < length (nodes h))%nat /\
            (dest_node (snd e) < length (nodes h))%nat)
         (connections h).

(** An oscillator sounds from its start time up to its stop time. *)
Definition playing (o : OscillatorNode) (t : Q) : bool :=
  match osc_startTime o with
  | None => false
  | Some ts =>
      Qle_bool ts t &&
      match osc_stopTime o with
      | None => true
      | Some te => negb (Qle_bool te t)
      end
  end.

(** The signal that leaves a node at the instant [t], for the nodes whose
    output is a function of their inputs at that instant: an oscillator
    gives its waveform [wave id t] while it sounds, a gain node multiplies
    the sum of its inputs by its gain, and the gain is the value of the
    timeline plus whatever is connected to the parameter.  A filter has
    memory and a host node is opaque: no value is given for them. *)
Fixpoint node_output (fuel : nat) (h : BaseAudioContext)
    (wave : nat -> Q -> Q) (t : Q) (id : nat) : option Q :=
  match fuel with
  | O => None
  | S k =>
      let mix (srcs : list nat) : option Q :=
        foldr (fun s acc =>
                 match node_output k h wave t s, acc with
                 | Some v, Some a => Some (v + a)%Q
                 | _, _ => None
                 end) (Some 0%Q) srcs in
      match nodes h !! id with
      | Some (Osc o) => Some (if playing o t then wave id t else 0%Q)
      | Some (Gain g) =>
          match mix (inputs_of h (ToNode id)),
                mix (inputs_of h (ToParam id P_gain)) with
          | Some x, Some c => Some (x * (value_at (gain g) t + c))%Q
          | _, _ => None
          end
      | _ => None
      end
  end.

(** A timeline that falls strictly, or rises strictly, over [[a, b]]. *)
Definition strictly_monotonic_on (p : AudioParam) (a b : Q) : Prop :=
  (forall x y : Q, (a <= x)%Q -> (x < y)%Q -> (y <= b)%Q ->
                   (value_at p y < value_at p x)%Q) \/
  (forall x y : Q, (a <= x)%Q -> (x < y)%Q -> (y <= b)%Q ->
                   (value_at p x < value_at p y)%Q).

(** ** The state a run of [start] leaves *)

(** The receiver after [start]: the nine nodes are allocated one after the
    other from the first free index [N] of the store. *)
Definition started_voice (c : ContextRef) (f m : Q) (out N : nat) : Voice :=
  {| context := c; frequency := f; maxAmp := m; output := out;
     attack := 0.02; decay := 0.01; sustain := 0.5; release := 0.5;
     osc := Obj N; osc2 := Obj (N + 1); osc2scale := Obj (N + 2);
     osc3 := Obj (N + 3); osc3scale := Obj (N + 4);
     ringModGain := Obj (N + 5); ringModModulator := Obj (N + 6);
     ampEnv := Obj (N + 7); lpFilter := Obj (N + 8) |}.

Definition started_osc (ty : OscillatorType) (fq : AudioParam)
    (h : option EventHandler) (t0 : Q) : AudioNode :=
  Osc {| osc_type := ty; osc_frequency := fq; osc_detune := mk_param 0;
         onended := h; osc_startTime := Some t0; osc_stopTime := None |}.

Definition voice_nodes (f m t0 : Q) : list AudioNode :=
  [ started_osc sine
      {| param_value := 440; param_events := [SetValue f t0] |}
      (Some BoundDispose) t0;
    started_osc sawtooth
      {| param_value := 440; param_events := [SetValue (f * 2) t0] |}
      None t0;
    Gain {| gain := mk_param 0.5 |};
    started_osc triangle
      {| param_value := 440; param_events := [SetValue (f / 2) t0] |}
      None t0;
    Gain {| gain := mk_param 1.0 |};
    Gain {| gain := mk_param 0 |};
    started_osc sine
      {| param_value := f / 128; param_events := [SetValue (f / 128) t0] |}
      None t0;
    Gain {| gain :=
              {| param_value := 0;
                 param_events :=
                   [SetValue 0 t0; LinearRamp m (t0 + 0.02);
                    LinearRamp (0.5 * m) (t0 + 0.02 + 0.01)] |} |};
    Biquad {| bq_type := lowpass; bq_frequency := mk_param (f + 2000);
              bq_detune := mk_param 0; bq_Q := mk_param 1;
              bq_gain := mk_param 0 |} ].

Definition voice_edges (N out : nat) : list Connection :=
  [ (N + 6, ToParam (N + 5) P_gain);
    (N, ToNode (N + 5));
    (N + 1, ToNode (N + 2));
    (N + 2, ToNode (N + 5));
    (N + 3, ToNode (N + 4));
    (N + 4, ToNode (N + 5));
    (N + 5, ToNode (N + 7));
    (N + 7, ToNode (N + 8));
    (N + 8, ToNode out) ]%nat.

Definition after_start (c : ContextRef) (f m : Q) (out : nat)
    (h : BaseAudioContext) : World :=
  {| this := started_voice c f m out (length (nodes h));
     ctx := {| currentTime := currentTime h;
               nodes := nodes h ++ voice_nodes f m (currentTime h);
               connections :=
                 foldl (fun cs e => add_connection e cs) (connections h)
                       (voice_edges (length (nodes h)) out) |} |}.

(** ** Reading the graph through the voice's references *)

Definition node_of (w : World) (r : JSRef) : option AudioNode :=
  match r with
  | Obj id => nodes (ctx w) !! id
  | _ => None
  end.

Definition param_of (w : World) (r : JSRef) (p : ParamName)
  : option AudioParam :=
  match node_of w r with
  | Some n => get_param n p
  | None => None
  end.

Definition oscillator_of (w : World) (r : JSRef) : option OscillatorNode :=
  match node_of w r with
  | Some (Osc o) => Some o
  | _ => None
  end.

Definition filter_of (w : World) (r : JSRef) : option BiquadFilterNode :=
  match node_of w r with
  | Some (Biquad b) => Some b
  | _ => None
  end.

(** A context with nothing but its destination, at time 0. *)
Definition studio : BaseAudioContext :=
  {| currentTime := 0; nodes := [Sink]; connections := [] |}.

(** ** Life-cycle states of a voice *)

(** The eight properties that [dispose] disconnects and sets to [null]. *)
Definition disposed_fields (v : Voice) : list JSRef :=
  [osc v; osc2 v; osc3 v; osc2scale v; osc3scale v; ringModGain v;
   ringModModulator v; ampEnv v].

(** A voice that holds all of its nodes, as after [start]. *)
Definition holds_nodes (v : Voice) : Prop :=
  Forall (fun r => is_obj r = true) (node_fields v).

(** The reference [r] holds an oscillator of the store that satisfies [P]. *)
Definition osc_state (h : BaseAudioContext) (r : JSRef)
    (P : OscillatorNode -> Prop) : Prop :=
  exists (id : nat) (o : OscillatorNode),
    r = Obj id /\ nodes h !! id = Some (Osc o) /\ P o.

Definition started_oscillator (w : World) (r : JSRef) : Prop :=
  osc_state (ctx w) r (fun o => is_Some (osc_startTime o)).

(** A started voice, seen from [stop]: its four oscillators have been
    started, its envelope node has a gain parameter, and the release time
    is the one the constructor set. *)
Definition running (w : World) : Prop :=
  started_oscillator w (osc (this w)) /\
  started_oscillator w (osc2 (this w)) /\
  started_oscillator w (osc3 (this w)) /\
  started_oscillator w (ringModModulator (this w)) /\
  is_Some (param_of w (ampEnv (this w)) P_gain) /\
  release (this w) = 0.5%Q.

(** The reference [r] holds a started oscillator that is to stop at [ts]. *)
Definition stops_at (ts : Q) (o : OscillatorNode) : Prop :=
  is_Some (osc_startTime o) /\
  exists t : Q, osc_stopTime o = Some t /\ (t == ts)%Q.

Definition stopped_at (w : World) (r : JSRef) (ts : Q) : Prop :=
  osc_state (ctx w) r (stops_at ts).

Definition with_stopTime (o : OscillatorNode) (t : Q) : OscillatorNode :=
  {| osc_type := osc_type o; osc_frequency := osc_frequency o;
     osc_detune := osc_detune o; onended := onended o;
     osc_startTime := osc_startTime o; osc_stopTime := Some t |}.

(** The receiver after [dispose]. *)
Definition disposed (v : Voice) : Voice :=
  {| context := context v; frequency := frequency v; maxAmp := maxAmp v;
     output := output v; attack := attack v; decay := decay v;
     sustain := sustain v; release := release v;
     osc := Null; osc2 := Null; osc2scale := Null; osc3 := Null;
     osc3scale := Null; ringModGain := Null; ringModModulator := Null;
     ampEnv := Null; lpFilter := lpFilter v |}.

(** The connections left when the nodes [ids] have been disconnected one
    after the other. *)
Definition without_sources (ids : list nat) (cs : list Connection)
  : list Connection :=
  foldl (fun acc id =>
           List.filter (fun e : Connection => negb (Nat.eqb (fst e) id)) acc)
        cs ids.

(** A whole life: start, hold the note for a second, stop, let the release
    run to the stop time of the oscillators, and deliver the [ended] event
    of the primary oscillator. *)
Definition life_cycle : M unit :=
  start;;
  render_until 1;;
  stop;;
  render_until 1.51;;
  o ← this_ref osc;
  fire_ended o.

(** The context with its node store replaced. *)
Definition with_nodes (h : BaseAudioContext) (ns : list AudioNode)
  : BaseAudioContext :=
  {| currentTime := currentTime h; nodes := ns;
     connections := connections h |}.

(** What the last lines of [stop] keep true while they stop the
    oscillators one by one: the envelope node [n] stays at index [e], the
    references of [running_refs] hold started oscillators, and those of
    [stopped_refs] hold oscillators that are to stop at [ts]. *)
Definition stopping (h : BaseAudioContext) (e : nat) (n : AudioNode)
    (running_refs stopped_refs : list JSRef) (ts : Q) : Prop :=
  nodes h !! e = Some n /\
  Forall (fun r => osc_state h r (fun o => is_Some (osc_startTime o)))
         running_refs /\
  Forall (fun r => osc_state h r (stops_at ts)) stopped_refs.

(** Scenario A of the specification: a 440 Hz voice at amplitude 0.8 on the
    destination of [studio]; and the same voice once it has been started
    and held for one second. *)
Definition scenario_A : World :=
  {| this := constructor the_context 440 0.8 0; ctx := studio |}.

Definition held_note : World :=
  snd ((start;; render_until 1) scenario_A).

(** The envelope parameter [stop] leaves when it is called at [t1] with
    the current value [g]: the events [evs] that were before [t1], the
    gain pinned at [t1], and the ramp to 0 over the release time. *)
Definition released (evs : list AutomationEvent) (v0 g t1 : Q) : AudioParam :=
  {| param_value := v0;
     param_events := evs ++ [SetValue g t1; LinearRamp 0 (t1 + 0.5)] |}.

(** The envelope parameter [start] leaves for amplitude [m] at time [t0]
    (the gain of the eighth node of [voice_nodes]). *)
Definition scheduled_envelope (m t0 : Q) : AudioParam :=
  {| param_value := 0;
     param_events :=
       [SetValue 0 t0; LinearRamp m (t0 + 0.02);
        LinearRamp (0.5 * m) (t0 + 0.02 + 0.01)] |}.

(** Two contexts with the same clock, the same connections and the same
    store but for the nodes at [ids]. *)
Definition differs_only_at (ids : list nat) (h h' : BaseAudioContext) : Prop :=
  currentTime h' = currentTime h /\
  connections h' = connections h /\
  length (nodes h') = length (nodes h) /\
  forall id : nat, id ∉ ids -> nodes h' !! id = nodes h !! id.

(** * Proofs *)

#[local] Arguments Qplus : simpl never.
#[local] Arguments Qmult : simpl never.
#[local] Arguments Qdiv : simpl never.
#[local] Arguments Qminus : simpl never.
#[local] Arguments Qle_bool : simpl never.
#[local] Arguments add_connection : simpl never.

(** ** Running a method body step by step *)

Lemma bind_step {A B : Type} (m : M A) (f : A -> M B) (w w' : World) (a : A)
    (R : Completion B * World) :
  m w = (Normal a, w') -> f a w' = R -> (m ≫= f) w = R.
Proof. intros Hm Hf. unfold mbind, M_bind. rewrite Hm. exact Hf. Qed.

Lemma bind_throw {A B : Type} (m : M A) (f : A -> M B) (w w' : World)
    (e : JSError) :
  m w = (Throw e, w') -> (m ≫= f) w = (Throw e, w').
Proof. intros Hm. unfold mbind, M_bind. rewrite Hm. reflexivity. Qed.

(** The store seen as the nodes that were there, followed by the nodes
    allocated since. *)
Lemma store_lookup {A : Type} (pre L : list A) (k : nat) :
  (pre ++ L) !! (length pre + k)%nat = L !! k.
Proof. rewrite lookup_app_r by lia. f_equal. lia. Qed.

Lemma store_insert {A : Type} (pre L : list A) (k : nat) (x : A) :
  <[(length pre + k)%nat := x]> (pre ++ L) = pre ++ <[k := x]> L.
Proof. by rewrite insert_app_r. Qed.

Lemma store_alloc {A : Type} (pre L : list A) (x : A) :
  (pre ++ L) ++ [x] = pre ++ (L ++ [x]).
Proof. by rewrite <- app_assoc. Qed.

Lemma store_length {A : Type} (pre L : list A) :
  length (pre ++ L) = (length pre + length L)%nat.
Proof. apply length_app. Qed.

Lemma Qle_bool_true (x y : Q) : (x <= y)%Q -> Qle_bool x y = true.
Proof. apply Qle_bool_iff. Qed.

Lemma Qle_bool_false (x y : Q) : (y < x)%Q -> Qle_bool x y = false.
Proof.
  intros H. destruct (Qle_bool x y) eqn:E; [ | reflexivity ].
  apply Qle_bool_iff in E. lra.
Qed.

Ltac crunch :=
  repeat (progress (unfold mbind, M_bind, mret, M_ret; cbn;
                    rewrite ?store_alloc, ?store_length, ?store_lookup,
                      ?store_insert));
  repeat match goal with
    | |- context [Qle_bool ?a ?b] => rewrite (Qle_bool_true a b) by lra; cbn
    end.

Ltac unfold_prims :=
  cbv [new_OscillatorNode new_GainNode new_BiquadFilterNode new_node
       this_set this_ref this_get deref get_currentTime get_ctx put_ctx
       get_node put_node param_get param_put setValueAtTime
       linearRampToValueAtTime cancelScheduledValues get_value set_value
       connect disconnect get_osc set_type set_onended osc_start osc_stop
       opt_num opt_filter_type].

Ltac prim := unfold_prims; crunch; reflexivity.

Ltac step := eapply bind_step; [ prim | cbv beta ].

(** [start] never throws, whatever the context: it allocates nine nodes at
    the end of the store, wires them, and schedules the envelope. *)
Lemma start_run (c : ContextRef) (f m : Q) (out : nat) (h : BaseAudioContext) :
  start {| this := constructor c f m out; ctx := h |}
  = (Normal tt, after_start c f m out h).
Proof.
  destruct h as [t0 pre conns]. unfold after_start, start. cbn.
  rewrite <- (app_nil_r pre) at 1.
  repeat step.
  unfold_prims; crunch. rewrite !Nat.add_0_r.
  reflexivity.
Qed.

Lemma Qle_bool_refl (x : Q) : Qle_bool x x = true.
Proof. apply Qle_bool_iff. lra. Qed.

(** A ramp has not left its starting value at its starting time. *)
Lemma ramp_origin (v0 v t0 te : Q) :
  (v0 + (v - v0) * ((t0 - t0) / (te - t0)) == v0)%Q.
Proof.
  assert (E : (t0 - t0 == 0)%Q) by lra.
  rewrite E. unfold Qdiv. rewrite Qmult_0_l. lra.
Qed.

(** ** The constructor *)

(** C8. For every input tuple (context, frequency, maxAmp, output), values
    out of range included, [new Voice(...)] completes normally, the new
    object holds the four parameters as given, it holds no node, and the
    audio context (clock, node store with every schedule in it, connection
    list) is what it was. *)
Theorem constructor_stores_verbatim (c : ContextRef) (f m : Q) (out : nat)
    (w : World) :
  exists v : Voice,
    new_Voice c f m out w = (Normal tt, {| this := v; ctx := ctx w |}) /\
    context v = c /\ frequency v = f /\ maxAmp v = m /\ output v = out /\
    nodes_held v = [] /\
    Forall (fun r => r = Undefined) (node_fields v).
Proof.
  exists (constructor c f m out). unfold new_Voice. cbn.
  repeat split; try reflexivity.
  repeat constructor.
Qed.

(** ** The state after [start] *)

(** C3 (as the code behaves). For every base frequency [f], after [start]
    the filter node is a lowpass whose cutoff is [f + 2000], but its
    resonance is the default 1, not 2: the options object spells the member
    [q], and the constructor reads [Q]. *)
Theorem lowpass_resonance_is_default (c : ContextRef) (f m : Q) (out : nat)
    (h : BaseAudioContext) :
  exists (w' : World) (b : BiquadFilterNode),
    start {| this := constructor c f m out; ctx := h |} = (Normal tt, w') /\
    filter_of w' (lpFilter (this w')) = Some b /\
    bq_type b = lowpass /\
    bq_frequency b = mk_param (f + 2000) /\
    bq_Q b = mk_param 1 /\
    (forall t : Q, value_at (bq_Q b) t == 1 /\ ~ value_at (bq_Q b) t == 2)%Q.
Proof.
  eexists _, _. split; [ apply start_run | ].
  unfold filter_of, node_of, after_start. cbn.
  rewrite store_lookup. cbn.
  repeat split; try reflexivity.
  unfold value_at. cbn. lra.
Qed.

(** Scenario A of the specification, on the filter: 2440 Hz, resonance 1. *)
Example scenario_A_filter :
  exists b : BiquadFilterNode,
    nodes (ctx (snd (start scenario_A))) !! 9%nat = Some (Biquad b) /\
    (param_value (bq_frequency b) == 2440)%Q /\
    (param_value (bq_Q b) == 1)%Q.
Proof. eexists. split; [ vm_compute; reflexivity | split; reflexivity ]. Qed.

(** C4. For every voice with [maxAmp = m] started at clock time [t0], the
    envelope gain scheduled by [start] is 0 at [t0], [m] at [t0 + 0.02],
    [0.5 * m] at [t0 + 0.03], and [0.5 * m] at every later time. *)
Theorem envelope_shape (c : ContextRef) (f m : Q) (out : nat)
    (h : BaseAudioContext) :
  exists (w' : World) (p : AudioParam),
    start {| this := constructor c f m out; ctx := h |} = (Normal tt, w') /\
    param_of w' (ampEnv (this w')) P_gain = Some p /\
    let t0 := currentTime h in
    (value_at p t0 == 0)%Q /\
    (value_at p (t0 + 0.02) == m)%Q /\
    (value_at p (t0 + 0.03) == 0.5 * m)%Q /\
    (forall t : Q, (t0 + 0.03 <= t)%Q -> (value_at p t == 0.5 * m)%Q).
Proof.
  eexists _, _. split; [ apply start_run | ].
  unfold param_of, node_of, after_start. cbn.
  rewrite store_lookup. cbn. split; [ reflexivity | ].
  unfold value_at. cbn.
  set (t0 := currentTime h).
  repeat split.
  - rewrite Qle_bool_refl, (Qle_bool_false (t0 + 0.02) t0) by lra.
    apply ramp_origin.
  - rewrite (Qle_bool_true t0 (t0 + 0.02)), Qle_bool_refl by lra.
    rewrite (Qle_bool_false (t0 + 0.02 + 0.01) (t0 + 0.02)) by lra.
    apply ramp_origin.
  - rewrite !Qle_bool_true by lra. reflexivity.
  - intros t Ht. rewrite !Qle_bool_true by lra. reflexivity.
Qed.

Lemma envelope_shape_witness :
  exists p : AudioParam,
    param_of (snd (start {| this := constructor the_context 440 0.8 0;
                            ctx := studio |}))
             (Obj 8) P_gain = Some p /\
    (value_at p 1 == 0.4)%Q.
Proof.
  destruct (envelope_shape the_context 440 0.8 0 studio)
    as (w' & p & Hrun & Hp & _ & _ & _ & Hlate).
  exists p. rewrite Hrun. split.
  - rewrite start_run in Hrun. injection Hrun as <-. exact Hp.
  - rewrite (Hlate 1%Q); [ lra | cbn; lra ].
Defined.

(** C7. For every base frequency [f], after [start] the primary oscillator
    is a sine at [f], the harmonic a sawtooth at [2 * f], the subharmonic a
    triangle at [0.5 * f], and the modulator runs at [f / 128], from the
    start time on. *)
Theorem oscillator_frequencies (c : ContextRef) (f m : Q) (out : nat)
    (h : BaseAudioContext) :
  exists (w' : World) (o1 o2 o3 om : OscillatorNode),
    start {| this := constructor c f m out; ctx := h |} = (Normal tt, w') /\
    oscillator_of w' (osc (this w')) = Some o1 /\
    oscillator_of w' (osc2 (this w')) = Some o2 /\
    oscillator_of w' (osc3 (this w')) = Some o3 /\
    oscillator_of w' (ringModModulator (this w')) = Some om /\
    osc_type o1 = sine /\ osc_type o2 = sawtooth /\ osc_type o3 = triangle /\
    forall t : Q, (currentTime h <= t)%Q ->
      (value_at (osc_frequency o1) t == f)%Q /\
      (value_at (osc_frequency o2) t == 2 * f)%Q /\
      (value_at (osc_frequency o3) t == 0.5 * f)%Q /\
      (value_at (osc_frequency om) t == f / 128)%Q.
Proof.
  eexists _, _, _, _, _. split; [ apply start_run | ].
  unfold oscillator_of, node_of, after_start. cbn.
  replace (length (nodes h)) with (length (nodes h) + 0)%nat at 1 by lia.
  rewrite !store_lookup. cbn.
  repeat (split; [ reflexivity | ]).
  intros t Ht. unfold value_at. cbn.
  rewrite !Qle_bool_true by lra.
  repeat split; try reflexivity; try lra.
  field.
Qed.

Lemma oscillator_frequencies_witness :
  exists o1 o2 o3 om : OscillatorNode,
    let w' := snd (start {| this := constructor the_context 440 0.8 0;
                            ctx := studio |}) in
    oscillator_of w' (osc (this w')) = Some o1 /\
    oscillator_of w' (osc2 (this w')) = Some o2 /\
    oscillator_of w' (osc3 (this w')) = Some o3 /\
    oscillator_of w' (ringModModulator (this w')) = Some om /\
    (value_at (osc_frequency o1) 0 == 440)%Q /\
    (value_at (osc_frequency o2) 0 == 880)%Q /\
    (value_at (osc_frequency o3) 0 == 220)%Q /\
    (value_at (osc_frequency om) 0 == 440 / 128)%Q.
Proof.
  destruct (oscillator_frequencies the_context 440 0.8 0 studio)
    as (w' & o1 & o2 & o3 & om & Hrun & H1 & H2 & H3 & Hm & _ & _ & _ & Hf).
  exists o1, o2, o3, om. rewrite Hrun. cbn [snd].
  destruct (Hf 0%Q) as (F1 & F2 & F3 & Fm); [ cbn; lra | ].
  repeat split; try assumption; lra.
Defined.

(** Scenario C of the specification: at 256 Hz the modulator runs at 2 Hz. *)
Example scenario_C_modulator :
  exists om : OscillatorNode,
    nodes (ctx (snd (start {| this := constructor the_context 256 0.8 0;
                              ctx := studio |}))) !! 7%nat
    = Some (Osc om) /\
    (value_at (osc_frequency om) 0 == 2.0)%Q.
Proof. eexists. split; [ vm_compute; reflexivity | vm_compute; reflexivity ]. Qed.

(** ** The graph after [start] *)

Lemma filter_none {A : Type} (f : A -> bool) (l : list A) :
  Forall (fun x => f x = false) l -> List.filter f l = [].
Proof.
  induction 1 as [ | x l Hx _ IH ]; [ reflexivity | ].
  cbn. rewrite Hx. exact IH.
Qed.

(** A node allocated after the graph was closed has no connection in it. *)
Lemma fresh_source (h : BaseAudioContext) (s : nat) (d : Destination) :
  closed_graph h -> (length (nodes h) <= s)%nat -> (s, d) ∉ connections h.
Proof.
  intros Hc Hs Hin. unfold closed_graph in Hc. rewrite Forall_forall in Hc.
  destruct (Hc _ Hin) as [Hlt _]. cbn in Hlt. lia.
Qed.

Lemma add_connection_new (e : Connection) (cs : list Connection) :
  e ∉ cs -> add_connection e cs = cs ++ [e].
Proof. intros H. unfold add_connection. by rewrite decide_False. Qed.

Lemma add_connection_snoc (e : Connection) (cs L : list Connection) :
  e ∉ cs ++ L -> add_connection e (cs ++ L) = cs ++ (L ++ [e]).
Proof. intros H. rewrite add_connection_new by exact H. by rewrite <- app_assoc. Qed.

Ltac not_among :=
  let H := fresh in
  intros H;
  repeat (apply elem_of_cons in H as [H | H];
          [ solve [ inversion H; lia ] | ]);
  apply elem_of_nil in H; exact H.

(** On a closed graph every connection [start] makes is new, so all nine
    are appended. *)
Lemma start_connections (out : nat) (h : BaseAudioContext) :
  closed_graph h ->
  foldl (fun cs e => add_connection e cs) (connections h)
        (voice_edges (length (nodes h)) out)
  = connections h ++ voice_edges (length (nodes h)) out.
Proof.
  intros Hc. unfold voice_edges. cbn [foldl].
  set (N := length (nodes h)).
  repeat match goal with
  | |- context [add_connection ?e (connections h)] =>
      rewrite (add_connection_new e (connections h))
        by (eapply fresh_source; [ exact Hc | fold N; lia ])
  | |- context [add_connection ?e (connections h ++ ?L)] =>
      rewrite (add_connection_snoc e (connections h) L)
        by (apply not_elem_of_app; split;
            [ eapply fresh_source; [ exact Hc | fold N; lia ] | not_among ]);
      cbn [app]
  end.
  reflexivity.
Qed.

Lemma successors_fresh (h : BaseAudioContext) (es : list Connection)
    (t0 : Q) (ns : list AudioNode) (s : nat) :
  closed_graph h -> (length (nodes h) <= s)%nat ->
  successors {| currentTime := t0; nodes := ns;
                connections := connections h ++ es |} s
  = map snd (List.filter (fun e : Connection => Nat.eqb (fst e) s) es).
Proof.
  intros Hc Hs. unfold successors. cbn.
  rewrite List.filter_app, filter_none; [ reflexivity | ].
  unfold closed_graph in Hc.
  eapply Forall_impl; [ exact Hc | ].
  intros [a d] [Ha _]. cbn in *. apply Nat.eqb_neq. lia.
Qed.

Lemma inputs_fresh (h : BaseAudioContext) (es : list Connection)
    (t0 : Q) (ns : list AudioNode) (d : Destination) :
  closed_graph h -> (length (nodes h) <= dest_node d)%nat ->
  inputs_of {| currentTime := t0; nodes := ns;
               connections := connections h ++ es |} d
  = map fst (List.filter (fun e : Connection => dest_eqb (snd e) d) es).
Proof.
  intros Hc Hd. unfold inputs_of. cbn.
  rewrite List.filter_app, filter_none; [ reflexivity | ].
  unfold closed_graph in Hc.
  eapply Forall_impl; [ exact Hc | ].
  intros [a d'] [_ Ha]. cbn in *.
  destruct d' as [i | i p], d as [j | j q]; cbn in *; try reflexivity.
  - apply Nat.eqb_neq. lia.
  - apply andb_false_intro1, Nat.eqb_neq. lia.
Qed.

(** Decide the comparisons of node indices that a filter over the new
    connections leaves. *)
Ltac decide_indices :=
  repeat match goal with
  | |- context [Nat.eqb ?a ?b] =>
      destruct (Nat.eqb_spec a b); [ try lia | try lia ]; cbn
  end.

Lemma successors_in (h : BaseAudioContext) (s : nat) (d : Destination) :
  (s, d) ∈ connections h -> d ∈ successors h s.
Proof.
  intros Hin. unfold successors.
  apply list_elem_of_In, in_map_iff. exists (s, d). split; [ reflexivity | ].
  apply filter_In. split; [ by apply list_elem_of_In | ].
  cbn. apply Nat.eqb_refl.
Qed.

(** Where a node has a single way out, a path through it takes that way. *)
Lemma path_forced (h : BaseAudioContext) (s d x : nat) (l : list nat) :
  successors h s = [ToNode d] -> is_path h (s :: l) -> x ∈ l ->
  exists l' : list nat, l = d :: l' /\ is_path h (d :: l').
Proof.
  intros Hs Hp Hx. destruct l as [ | b l' ]; [ by apply elem_of_nil in Hx | ].
  destruct Hp as [Hin Hp]. apply successors_in in Hin. rewrite Hs in Hin.
  apply list_elem_of_singleton in Hin. injection Hin as ->.
  exists l'. split; [ reflexivity | exact Hp ].
Qed.

#[local] Arguments successors : simpl never.
#[local] Arguments inputs_of : simpl never.

(** The graph [start] leaves on a closed graph: what was there, then the
    nine new connections. *)
Lemma start_graph (c : ContextRef) (f m : Q) (out : nat)
    (h : BaseAudioContext) :
  closed_graph h ->
  ctx (after_start c f m out h)
  = {| currentTime := currentTime h;
       nodes := nodes h ++ voice_nodes f m (currentTime h);
       connections := connections h ++ voice_edges (length (nodes h)) out |}.
Proof.
  intros Hc. unfold after_start. cbn [ctx].
  rewrite (start_connections out h Hc). reflexivity.
Qed.

(** [start] keeps the graph closed. *)
Lemma start_keeps_closed (c : ContextRef) (f m : Q) (out : nat)
    (h : BaseAudioContext) :
  closed_graph h -> (out < length (nodes h))%nat ->
  closed_graph (ctx (after_start c f m out h)).
Proof.
  intros Hc Hout. rewrite (start_graph c f m out h Hc).
  unfold closed_graph. cbn [nodes connections]. rewrite length_app.
  apply Forall_app. split.
  - eapply Forall_impl; [ exact Hc | ]. intros e [H1 H2]. lia.
  - unfold voice_edges. repeat constructor; cbn; lia.
Qed.

Ltac successors_of_new Hc :=
  rewrite (successors_fresh _ _ _ _ _ Hc) by lia;
  unfold voice_edges; cbn; decide_indices; reflexivity.

Ltac follow S Hp Hout :=
  let l' := fresh "l" in
  let Hp' := fresh "Hp" in
  let E := fresh "E" in
  destruct (path_forced _ _ _ _ _ S Hp Hout) as (l' & -> & Hp');
  apply elem_of_cons in Hout as [E | Hout]; [ try lia | ].

(** C6. For every voice, on a closed graph whose sink is a node of the
    store, [start] leaves exactly this topology: each node of the voice has
    a single way out; the primary oscillator feeds the ring-mod stage, the
    harmonic its 0.5-gain scaler and the subharmonic its 1.0-gain scaler,
    which feed the ring-mod stage; the ring-mod stage feeds the envelope,
    the envelope the filter, the filter the sink; the modulator is
    connected to the gain parameter of the ring-mod stage and not to its
    signal input.  Hence every signal path from one of the three
    oscillators to the sink begins with that chain. *)
Theorem graph_shape (c : ContextRef) (f m : Q) (out : nat)
    (h : BaseAudioContext) :
  closed_graph h -> (out < length (nodes h))%nat ->
  exists (w' : World) (o1 o2 s2 o3 s3 rg md env lp : nat),
    start {| this := constructor c f m out; ctx := h |} = (Normal tt, w') /\
    node_fields (this w')
    = [Obj o1; Obj o2; Obj s2; Obj o3; Obj s3; Obj rg; Obj md; Obj env;
       Obj lp] /\
    let g := ctx w' in
    successors g o1 = [ToNode rg] /\
    successors g o2 = [ToNode s2] /\
    successors g s2 = [ToNode rg] /\
    successors g o3 = [ToNode s3] /\
    successors g s3 = [ToNode rg] /\
    successors g rg = [ToNode env] /\
    successors g env = [ToNode lp] /\
    successors g lp = [ToNode out] /\
    successors g md = [ToParam rg P_gain] /\
    ((md, ToNode rg) ∉ connections g) /\
    param_of w' (Obj s2) P_gain = Some (mk_param 0.5) /\
    param_of w' (Obj s3) P_gain = Some (mk_param 1.0) /\
    (forall l : list nat, is_path g (o1 :: l) -> out ∈ l ->
       exists l', l = [rg; env; lp; out] ++ l') /\
    (forall l : list nat, is_path g (o2 :: l) -> out ∈ l ->
       exists l', l = [s2; rg; env; lp; out] ++ l') /\
    (forall l : list nat, is_path g (o3 :: l) -> out ∈ l ->
       exists l', l = [s3; rg; env; lp; out] ++ l').
Proof.
  intros Hc Hout.
  set (N := length (nodes h)).
  exists (after_start c f m out h), N, (N + 1)%nat, (N + 2)%nat, (N + 3)%nat,
    (N + 4)%nat, (N + 5)%nat, (N + 6)%nat, (N + 7)%nat, (N + 8)%nat.
  split; [ apply start_run | ].
  split; [ reflexivity | ].
  cbv zeta. rewrite (start_graph c f m out h Hc). fold N.
  set (G := {| currentTime := currentTime h;
               nodes := nodes h ++ voice_nodes f m (currentTime h);
               connections := connections h ++ voice_edges N out |}).
  assert (S1 : successors G N = [ToNode (N + 5)])
    by (subst G N; successors_of_new Hc).
  assert (S2 : successors G (N + 1) = [ToNode (N + 2)])
    by (subst G N; successors_of_new Hc).
  assert (S3 : successors G (N + 2) = [ToNode (N + 5)])
    by (subst G N; successors_of_new Hc).
  assert (S4 : successors G (N + 3) = [ToNode (N + 4)])
    by (subst G N; successors_of_new Hc).
  assert (S5 : successors G (N + 4) = [ToNode (N + 5)])
    by (subst G N; successors_of_new Hc).
  assert (S6 : successors G (N + 5) = [ToNode (N + 7)])
    by (subst G N; successors_of_new Hc).
  assert (S7 : successors G (N + 7) = [ToNode (N + 8)])
    by (subst G N; successors_of_new Hc).
  assert (S8 : successors G (N + 8) = [ToNode out])
    by (subst G N; successors_of_new Hc).
  assert (S9 : successors G (N + 6) = [ToParam (N + 5) P_gain])
    by (subst G N; successors_of_new Hc).
  repeat (split; [ assumption | ]).
  split.
  { intros Hin. apply successors_in in Hin. rewrite S9 in Hin.
    apply list_elem_of_singleton in Hin. discriminate Hin. }
  unfold param_of, node_of. subst G N. cbn. rewrite !store_lookup. cbn.
  repeat (split; [ reflexivity | ]).
  repeat split; intros l Hp Hx.
  - follow S1 Hp Hx. follow S6 Hp0 Hx. follow S7 Hp1 Hx.
    destruct (path_forced _ _ _ _ _ S8 Hp2 Hx) as (l' & -> & _).
    exists l'. reflexivity.
  - follow S2 Hp Hx. follow S3 Hp0 Hx. follow S6 Hp1 Hx. follow S7 Hp2 Hx.
    destruct (path_forced _ _ _ _ _ S8 Hp3 Hx) as (l' & -> & _).
    exists l'. reflexivity.
  - follow S4 Hp Hx. follow S5 Hp0 Hx. follow S6 Hp1 Hx. follow S7 Hp2 Hx.
    destruct (path_forced _ _ _ _ _ S8 Hp3 Hx) as (l' & -> & _).
    exists l'. reflexivity.
Qed.

Lemma studio_closed : closed_graph studio.
Proof. constructor. Qed.

Lemma graph_shape_witness :
  closed_graph studio /\ (0 < length (nodes studio))%nat /\
  let g := ctx (snd (start {| this := constructor the_context 440 0.8 0;
                              ctx := studio |})) in
  successors g 7 = [ToParam 6 P_gain] /\ successors g 9 = [ToNode 0].
Proof.
  assert (Hl : (0 < length (nodes studio))%nat) by (cbn; lia).
  split; [ exact studio_closed | ]. split; [ exact Hl | ].
  destruct (graph_shape the_context 440 0.8 0 studio studio_closed Hl)
    as (w' & o1 & o2 & s2 & o3 & s3 & rg & md & env & lp & Hrun & Hf & Hg).
  cbv zeta in *. rewrite Hrun. cbn [snd].
  rewrite start_run in Hrun. injection Hrun as <-.
  cbn in Hf. injection Hf as <- <- <- <- <- <- <- <- <-.
  destruct Hg as (_ & _ & _ & _ & _ & _ & _ & S8 & S9 & _).
  split; [ exact S9 | exact S8 ].
Defined.

(** ** The ring-mod stage *)

Ltac inputs_of_new Hc :=
  rewrite (inputs_fresh _ _ _ _ _ Hc) by (cbn; lia);
  unfold voice_edges; cbn; decide_indices.

(** C10. For every voice, on a closed graph whose sink is a node of the
    store, [start] builds the ring-mod stage with gain 0 and nothing
    scheduled on it, and connects the modulator to that gain; so at every
    instant the signal that leaves the stage is the sum of the primary
    oscillator, 0.5 times the harmonic and 1.0 times the subharmonic,
    multiplied by the output of the modulator. *)
Theorem ring_modulation (c : ContextRef) (f m : Q) (out : nat)
    (h : BaseAudioContext) (wave : nat -> Q -> Q) (t : Q) :
  closed_graph h -> (out < length (nodes h))%nat ->
  exists (w' : World) (o1 o2 o3 rg md : nat) (s1 s2 s3 sm v : Q),
    start {| this := constructor c f m out; ctx := h |} = (Normal tt, w') /\
    osc (this w') = Obj o1 /\ osc2 (this w') = Obj o2 /\
    osc3 (this w') = Obj o3 /\ ringModGain (this w') = Obj rg /\
    ringModModulator (this w') = Obj md /\
    nodes (ctx w') !! rg = Some (Gain {| gain := mk_param 0 |}) /\
    inputs_of (ctx w') (ToParam rg P_gain) = [md] /\
    node_output 1 (ctx w') wave t o1 = Some s1 /\
    node_output 1 (ctx w') wave t o2 = Some s2 /\
    node_output 1 (ctx w') wave t o3 = Some s3 /\
    node_output 1 (ctx w') wave t md = Some sm /\
    node_output 3 (ctx w') wave t rg = Some v /\
    (v == (s1 + 0.5 * s2 + 1.0 * s3) * sm)%Q.
Proof.
  intros Hc Hout.
  set (N := length (nodes h)).
  exists (after_start c f m out h), N, (N + 1)%nat, (N + 3)%nat, (N + 5)%nat,
    (N + 6)%nat.
  do 5 eexists.
  split; [ apply start_run | ].
  do 5 (split; [ reflexivity | ]).
  rewrite (start_graph c f m out h Hc). fold N.
  set (G := {| currentTime := currentTime h;
               nodes := nodes h ++ voice_nodes f m (currentTime h);
               connections := connections h ++ voice_edges N out |}).
  assert (L0 : nodes G !! N = (voice_nodes f m (currentTime h)) !! 0%nat).
  { subst G N. cbn [nodes].
    rewrite <- (store_lookup (nodes h) (voice_nodes f m (currentTime h)) 0).
    f_equal. lia. }
  assert (L : forall k : nat,
             nodes G !! (N + k)%nat = (voice_nodes f m (currentTime h)) !! k).
  { intros k. subst G N. cbn [nodes]. apply store_lookup. }
  assert (I1 : inputs_of G (ToNode (N + 5)) = [N; N + 2; N + 4]%nat)
    by (subst G N; inputs_of_new Hc; reflexivity).
  assert (I2 : inputs_of G (ToParam (N + 5) P_gain) = [N + 6]%nat)
    by (subst G N; inputs_of_new Hc; reflexivity).
  assert (I3 : inputs_of G (ToNode (N + 2)) = [N + 1]%nat)
    by (subst G N; inputs_of_new Hc; reflexivity).
  assert (I4 : inputs_of G (ToParam (N + 2) P_gain) = [])
    by (subst G N; inputs_of_new Hc; reflexivity).
  assert (I5 : inputs_of G (ToNode (N + 4)) = [N + 3]%nat)
    by (subst G N; inputs_of_new Hc; reflexivity).
  assert (I6 : inputs_of G (ToParam (N + 4) P_gain) = [])
    by (subst G N; inputs_of_new Hc; reflexivity).
  split; [ rewrite L; reflexivity | ].
  split; [ exact I2 | ].
  repeat (progress
            (cbn [node_output foldr voice_nodes lookup list_lookup
                  started_osc];
             rewrite ?L0, ?L, ?I1, ?I2, ?I3, ?I4, ?I5, ?I6)).
  do 5 (split; [ reflexivity | ]).
  unfold value_at. cbn. lra.
Qed.

Lemma ring_modulation_witness :
  closed_graph studio /\ (0 < length (nodes studio))%nat /\
  exists v : Q,
    node_output 3
      (ctx (snd (start {| this := constructor the_context 440 0.8 0;
                          ctx := studio |})))
      (fun _ _ => 1%Q) 0 6
    = Some v /\
    (v == 2.5)%Q.
Proof.
  assert (Hl : (0 < length (nodes studio))%nat) by (cbn; lia).
  split; [ exact studio_closed | ]. split; [ exact Hl | ].
  destruct (ring_modulation the_context 440 0.8 0 studio (fun _ _ => 1%Q) 0
              studio_closed Hl)
    as (w' & o1 & o2 & o3 & rg & md & s1 & s2 & s3 & sm & v & Hrun & F1 & F2
        & F3 & F4 & F5 & _ & _ & H1 & H2 & H3 & Hm & Hv & Heq).
  rewrite Hrun. cbn [snd].
  rewrite start_run in Hrun. injection Hrun as <-.
  cbn in F1, F2, F3, F4, F5.
  injection F1 as <-. injection F2 as <-. injection F3 as <-.
  injection F4 as <-. injection F5 as <-.
  vm_compute in H1. injection H1 as <-.
  vm_compute in H2. injection H2 as <-.
  vm_compute in H3. injection H3 as <-.
  vm_compute in Hm. injection Hm as <-.
  exists v. split; [ exact Hv | ]. rewrite Heq. reflexivity.
Defined.

(** ** [stop] *)

(** C9. For every voice on which [start] was never called, [stop] throws a
    TypeError when it reads [this.ampEnv.gain], before anything is
    cancelled or scheduled: the voice and the audio context are what they
    were. *)
Theorem stop_before_start (c : ContextRef) (f m : Q) (out : nat)
    (h : BaseAudioContext) :
  stop {| this := constructor c f m out; ctx := h |}
  = (Throw TypeError, {| this := constructor c f m out; ctx := h |}).
Proof.
  unfold stop.
  eapply bind_step; [ reflexivity | cbv beta ].
  apply bind_throw. reflexivity.
Qed.

(** *** The timeline after a cancellation *)

Lemma cancel_events_before (t : Q) (evs : list AutomationEvent) :
  Forall (fun e => (ev_time e < t)%Q) (cancel_events t evs).
Proof.
  unfold cancel_events. induction evs as [ | e evs IH ]; cbn; [ constructor | ].
  destruct (Qle_bool t (ev_time e)) eqn:E; cbn; [ exact IH | ].
  constructor; [ | exact IH ].
  destruct (Qlt_le_dec (ev_time e) t) as [Hlt | Hle]; [ exact Hlt | ].
  apply Qle_bool_iff in Hle. congruence.
Qed.

Lemma insert_event_last (e : AutomationEvent) (evs : list AutomationEvent) :
  Forall (fun e' => (ev_time e' <= ev_time e)%Q) evs ->
  insert_event e evs = evs ++ [e].
Proof.
  induction 1 as [ | e' evs He' _ IH ]; cbn; [ reflexivity | ].
  rewrite (Qle_bool_true _ _ He'), IH. reflexivity.
Qed.

Lemma has_preceding_last (t : Q) (evs : list AutomationEvent)
    (e : AutomationEvent) :
  (ev_time e <= t)%Q -> has_preceding t (evs ++ [e]) = true.
Proof.
  intros He. unfold has_preceding. rewrite existsb_app. cbn.
  rewrite (Qle_bool_true _ _ He). apply orb_true_iff. right. reflexivity.
Qed.

(** Events that are past do not matter once a later value has been set. *)
Lemma value_from_past (evs rest : list AutomationEvent) (v0 t0 g t1 t : Q) :
  Forall (fun e => (ev_time e <= t)%Q) evs -> (t1 <= t)%Q ->
  value_from v0 t0 (evs ++ SetValue g t1 :: rest) t = value_from g t1 rest t.
Proof.
  intros Hall Ht. revert v0 t0.
  induction Hall as [ | e evs He _ IH ]; intros v0 t0; cbn.
  - rewrite (Qle_bool_true _ _ Ht). reflexivity.
  - destruct e as [v te | v te]; cbn in He;
      rewrite (Qle_bool_true _ _ He); apply IH.
Qed.

(** The release: pinned at [g] at [t1], then a straight line to 0 at
    [t1 + 0.5], whatever was scheduled before [t1]. *)
Section Release.
Variables (evs : list AutomationEvent) (v0 g t1 : Q).
Hypothesis past : Forall (fun e => (ev_time e < t1)%Q) evs.

Lemma release_timeline (t : Q) :
  (t1 <= t)%Q -> (t <= t1 + 0.5)%Q ->
  (value_at (released evs v0 g t1) t == g - g * ((t - t1) / 0.5))%Q.
Proof.
  intros H1 H2. unfold value_at, released.
  cbn [param_value param_events].
  rewrite value_from_past; [ | | exact H1 ].
  2:{ eapply Forall_impl; [ exact past | ]. intros e He. cbn in He. lra. }
  cbn [value_from].
  destruct (Qle_bool (t1 + 0.5) t) eqn:E.
  - apply Qle_bool_iff in E.
    assert (Et : (t - t1 == 0.5)%Q) by lra.
    rewrite Et. field.
  - assert (Ed : (t1 + 0.5 - t1 == 0.5)%Q) by lra.
    rewrite Ed. field.
Qed.

Lemma release_drop (x y : Q) :
  (t1 <= x)%Q -> (x < y)%Q -> (y <= t1 + 0.5)%Q ->
  (value_at (released evs v0 g t1) x - value_at (released evs v0 g t1) y
   == 2 * g * (y - x))%Q.
Proof.
  intros H1 H2 H3.
  rewrite (release_timeline x), (release_timeline y) by lra.
  field.
Qed.

Lemma release_strict :
  ~ (g == 0)%Q ->
  strictly_monotonic_on (released evs v0 g t1) t1 (t1 + 0.5).
Proof.
  intros Hg.
  destruct (Q_dec g 0) as [[Hneg | Hpos] | Hz];
    [ right | left | contradiction ];
    intros x y H1 H2 H3; pose proof (release_drop x y H1 H2 H3) as Hd.
  - assert (Hp : (0 < (- g) * (y - x))%Q)
      by (apply Qmult_lt_0_compat; lra).
    lra.
  - assert (Hp : (0 < g * (y - x))%Q) by (apply Qmult_lt_0_compat; lra).
    lra.
Qed.

End Release.

(** *** Running the primitives on a node that is known *)

Lemma this_ref_run (fld : Voice -> JSRef) (v : Voice) (h : BaseAudioContext)
    (id : nat) :
  fld v = Obj id ->
  this_ref fld {| this := v; ctx := h |} = (Normal id, {| this := v; ctx := h |}).
Proof.
  intros H. unfold this_ref, this_get, mbind, M_bind. cbn. rewrite H.
  reflexivity.
Qed.

Lemma param_get_run (v : Voice) (h : BaseAudioContext) (id : nat)
    (p : ParamName) (n : AudioNode) (a : AudioParam) :
  nodes h !! id = Some n -> get_param n p = Some a ->
  param_get id p {| this := v; ctx := h |}
  = (Normal a, {| this := v; ctx := h |}).
Proof.
  intros Hn Ha. unfold param_get, get_node, get_ctx, mbind, M_bind. cbn.
  rewrite Hn. cbn. rewrite Ha. reflexivity.
Qed.

Lemma param_put_run (v : Voice) (h : BaseAudioContext) (id : nat)
    (p : ParamName) (n : AudioNode) (a : AudioParam) :
  nodes h !! id = Some n ->
  param_put id p a {| this := v; ctx := h |}
  = (Normal tt,
     {| this := v;
        ctx := with_nodes h (<[id := set_param n p a]> (nodes h)) |}).
Proof.
  intros Hn.
  unfold param_put, put_node, get_node, get_ctx, put_ctx, mbind, M_bind. cbn.
  rewrite Hn. reflexivity.
Qed.

Lemma get_set_param (n : AudioNode) (p : ParamName) (a a' : AudioParam) :
  get_param n p = Some a -> get_param (set_param n p a') p = Some a'.
Proof. destruct n, p; cbn; intros H; try discriminate H; reflexivity. Qed.

Lemma set_set_param (n : AudioNode) (p : ParamName) (a a' : AudioParam) :
  set_param (set_param n p a) p a' = set_param n p a'.
Proof. destruct n, p; reflexivity. Qed.

(** The store with the parameter [p] of node [id] replaced. *)
Lemma with_param_lookup (h : BaseAudioContext) (id : nat) (p : ParamName)
    (n : AudioNode) (a : AudioParam) :
  nodes h !! id = Some n ->
  nodes (with_nodes h (<[id := set_param n p a]> (nodes h))) !! id
  = Some (set_param n p a).
Proof.
  intros Hn. cbn. apply list_lookup_insert_eq. by eapply lookup_lt_Some.
Qed.

Lemma with_param_again (h : BaseAudioContext) (id : nat) (p : ParamName)
    (n : AudioNode) (a a' : AudioParam) :
  with_nodes (with_nodes h (<[id := set_param n p a]> (nodes h)))
    (<[id := set_param (set_param n p a) p a']>
       (nodes (with_nodes h (<[id := set_param n p a]> (nodes h)))))
  = with_nodes h (<[id := set_param n p a']> (nodes h)).
Proof.
  unfold with_nodes. cbn. rewrite list_insert_insert_eq, set_set_param.
  reflexivity.
Qed.

Lemma osc_stop_run (v : Voice) (h : BaseAudioContext) (id : nat)
    (o : OscillatorNode) (ts : Q) :
  nodes h !! id = Some (Osc o) -> is_Some (osc_startTime o) ->
  osc_stop id ts {| this := v; ctx := h |}
  = (Normal tt,
     {| this := v;
        ctx := with_nodes h (<[id := Osc (with_stopTime o ts)]> (nodes h)) |}).
Proof.
  intros Hn [t0 Ht0].
  unfold osc_stop, get_osc, get_node, put_node, get_ctx, put_ctx, mbind,
    M_bind.
  unfold with_stopTime. cbn. rewrite Hn. cbn. rewrite Ht0. reflexivity.
Qed.

(** Replacing an oscillator of the store by one that satisfies [P] keeps
    every reference that held an oscillator satisfying [P]. *)
Lemma osc_state_insert (h : BaseAudioContext) (r : JSRef)
    (P : OscillatorNode -> Prop) (id : nat) (o' : OscillatorNode) :
  P o' -> osc_state h r P ->
  osc_state (with_nodes h (<[id := Osc o']> (nodes h))) r P.
Proof.
  intros Hp (i & o & -> & Hi & Ho). cbn.
  destruct (decide (id = i)) as [-> | Hne].
  - exists i, o'. split; [ reflexivity | ]. split; [ | exact Hp ].
    apply list_lookup_insert_eq. by eapply lookup_lt_Some.
  - exists i, o. split; [ reflexivity | ]. split; [ | exact Ho ].
    cbn. by rewrite list_lookup_insert_ne.
Qed.

Lemma osc_state_here (h : BaseAudioContext) (id : nat)
    (P : OscillatorNode -> Prop) (o o' : OscillatorNode) :
  nodes h !! id = Some (Osc o) -> P o' ->
  osc_state (with_nodes h (<[id := Osc o']> (nodes h))) (Obj id) P.
Proof.
  intros Hn Hp. exists id, o'. split; [ reflexivity | ]. split; [ | exact Hp ].
  cbn. apply list_lookup_insert_eq. by eapply lookup_lt_Some.
Qed.

(** An oscillator has no gain parameter, so replacing one leaves the node
    that carries the envelope alone. *)
Lemma gain_param_kept (h : BaseAudioContext) (id e : nat)
    (o o' : OscillatorNode) (n : AudioNode) (a : AudioParam) :
  nodes h !! id = Some (Osc o) ->
  nodes h !! e = Some n -> get_param n P_gain = Some a ->
  nodes (with_nodes h (<[id := Osc o']> (nodes h))) !! e = Some n.
Proof.
  intros Hid He Ha. cbn. rewrite list_lookup_insert_ne; [ exact He | ].
  intros ->. rewrite Hid in He. injection He as <-. discriminate Ha.
Qed.

Lemma with_stopTime_stops (o : OscillatorNode) (t ts : Q) :
  is_Some (osc_startTime o) -> (t == ts)%Q -> stops_at ts (with_stopTime o t).
Proof. intros H E. split; [ exact H | ]. exists t. split; [ reflexivity | exact E ]. Qed.

(** Replacing the gain parameter of the envelope node disturbs no
    oscillator. *)
Lemma osc_state_param (h : BaseAudioContext) (r : JSRef)
    (P : OscillatorNode -> Prop) (e : nat) (n : AudioNode)
    (a a' : AudioParam) :
  nodes h !! e = Some n -> get_param n P_gain = Some a ->
  osc_state h r P ->
  osc_state (with_nodes h (<[e := set_param n P_gain a']> (nodes h))) r P.
Proof.
  intros He Ha (i & o & -> & Hi & Ho).
  exists i, o. split; [ reflexivity | ]. split; [ | exact Ho ].
  cbn. rewrite list_lookup_insert_ne; [ exact Hi | ].
  intros ->. rewrite Hi in He. injection He as <-. discriminate Ha.
Qed.

(** One oscillator stopped: [this.<fld>.stop(t)]. *)
Lemma stop_step (fld : Voice -> JSRef) (v : Voice) (h : BaseAudioContext)
    (e : nat) (n : AudioNode) (a : AudioParam) (L S : list JSRef) (t ts : Q) :
  stopping h e n L S ts -> get_param n P_gain = Some a ->
  fld v ∈ L -> (t == ts)%Q ->
  exists (i : nat) (h' : BaseAudioContext),
    fld v = Obj i /\
    osc_stop i t {| this := v; ctx := h |}
    = (Normal tt, {| this := v; ctx := h' |}) /\
    stopping h' e n L (fld v :: S) ts /\
    currentTime h' = currentTime h /\ connections h' = connections h.
Proof.
  intros (He & HL & HS) Ha Hin Ht.
  pose proof HL as HL'. rewrite Forall_forall in HL'.
  destruct (HL' _ Hin) as (i & o & Hf & Hi & Ho).
  exists i, (with_nodes h (<[i := Osc (with_stopTime o t)]> (nodes h))).
  split; [ exact Hf | ].
  split; [ by apply osc_stop_run | ].
  split; [ | split; reflexivity ].
  split; [ by eapply gain_param_kept | ].
  split.
  - eapply Forall_impl; [ exact HL | ].
    intros r Hr. apply osc_state_insert; [ exact Ho | exact Hr ].
  - constructor.
    + rewrite Hf. eapply osc_state_here; [ exact Hi | ].
      by apply with_stopTime_stops.
    + eapply Forall_impl; [ exact HS | ].
      intros r Hr. apply osc_state_insert; [ | exact Hr ].
      by apply with_stopTime_stops.
Qed.

(** C5 (amended). For every started voice, [stop] at clock time [t1], while
    the current value of the envelope gain is [g], completes normally; it
    drops the envelope events scheduled at or after [t1], pins the gain to
    [g] at [t1] and schedules a straight line from [g] at [t1] to 0 at
    [t1 + 0.5]; the line is strictly monotonic when [g] is not 0 (it is
    constant at 0 when [g] is 0); and the four oscillators are scheduled to
    stop at [t1 + 0.51]. *)
Theorem stop_release (w : World) :
  running w ->
  exists (p p' : AudioParam) (w' : World),
    param_of w (ampEnv (this w)) P_gain = Some p /\
    stop w = (Normal tt, w') /\
    this w' = this w /\
    param_of w' (ampEnv (this w')) P_gain = Some p' /\
    let t1 := currentTime (ctx w) in
    let g := param_value p in
    param_events p'
    = cancel_events t1 (param_events p)
        ++ [SetValue g t1; LinearRamp 0 (t1 + 0.5)] /\
    Forall (fun e => (ev_time e < t1)%Q) (cancel_events t1 (param_events p)) /\
    (value_at p' t1 == g)%Q /\
    (forall t : Q, (t1 <= t)%Q -> (t <= t1 + 0.5)%Q ->
                   (value_at p' t == g - g * ((t - t1) / 0.5))%Q) /\
    (value_at p' (t1 + 0.5) == 0)%Q /\
    (~ (g == 0)%Q -> strictly_monotonic_on p' t1 (t1 + 0.5)) /\
    stopped_at w' (osc (this w')) (t1 + 0.51) /\
    stopped_at w' (osc2 (this w')) (t1 + 0.51) /\
    stopped_at w' (osc3 (this w')) (t1 + 0.51) /\
    stopped_at w' (ringModModulator (this w')) (t1 + 0.51).
Proof.
  destruct w as [v h].
  intros (O1 & O2 & O3 & Om & [p Hp] & Hrel). cbn [this ctx] in *.
  unfold started_oscillator in *. cbn [ctx] in *.
  unfold param_of, node_of in Hp. cbn [ctx] in Hp.
  destruct (ampEnv v) as [ | | e ] eqn:He; try discriminate Hp.
  destruct (nodes h !! e) as [ n | ] eqn:Hn; try discriminate Hp.
  set (t1 := currentTime h). set (g := param_value p).
  set (evs := cancel_events t1 (param_events p)).
  pose proof (cancel_events_before t1 (param_events p)) as Hevs. fold evs in Hevs.
  set (p' := released evs g g t1).
  set (h3 := with_nodes h (<[e := set_param n P_gain p']> (nodes h))).
  assert (I3 : stopping h3 e (set_param n P_gain p')
                 [osc v; osc2 v; osc3 v; ringModModulator v] [] (t1 + 0.51)).
  { split; [ by apply with_param_lookup | ]. split; [ | constructor ].
    repeat constructor; by eapply osc_state_param. }
  assert (Hts : (t1 + release v + 0.01 == t1 + 0.51)%Q) by (rewrite Hrel; lra).
  assert (Hp' : get_param (set_param n P_gain p') P_gain = Some p')
    by (by eapply get_set_param).
  destruct (stop_step osc v h3 e _ _ _ _ _ _ I3 Hp' ltac:(set_solver) Hts)
    as (i1 & h4 & F1 & R1 & I4 & T4 & C4).
  destruct (stop_step osc2 v h4 e _ _ _ _ _ _ I4 Hp' ltac:(set_solver) Hts)
    as (i2 & h5 & F2 & R2 & I5 & T5 & C5).
  destruct (stop_step osc3 v h5 e _ _ _ _ _ _ I5 Hp' ltac:(set_solver) Hts)
    as (i3 & h6 & F3 & R3 & I6 & T6 & C6).
  destruct (stop_step ringModModulator v h6 e _ _ _ _ _ _ I6 Hp'
              ltac:(set_solver) Hts)
    as (i4 & h7 & F4 & R4 & I7 & T7 & C7).
  assert (E1 : insert_event (SetValue g t1) evs = evs ++ [SetValue g t1]).
  { apply insert_event_last. eapply Forall_impl; [ exact Hevs | ].
    intros a Ha. cbn in *. lra. }
  assert (E2 : has_preceding (t1 + 0.5) (evs ++ [SetValue g t1]) = true)
    by (apply has_preceding_last; cbn; lra).
  assert (E3 : insert_event (LinearRamp 0 (t1 + 0.5)) (evs ++ [SetValue g t1])
               = (evs ++ [SetValue g t1]) ++ [LinearRamp 0 (t1 + 0.5)]).
  { apply insert_event_last. apply Forall_app. split.
    - eapply Forall_impl; [ exact Hevs | ]. intros a Ha. cbn in *. lra.
    - repeat constructor. cbn. lra. }
  exists p, p', {| this := v; ctx := h7 |}.
  split; [ unfold param_of, node_of; cbn [ctx]; rewrite Hn; exact Hp | ].
  split.
  { unfold stop.
    eapply bind_step; [ reflexivity | cbv beta ].
    eapply bind_step; [ apply (this_ref_run ampEnv _ _ _ He) | cbv beta ].
    eapply bind_step.
    { unfold cancelScheduledValues.
      eapply bind_step; [ eapply param_get_run; eassumption | cbv beta ].
      eapply param_put_run; eassumption. }
    cbv beta.
    eapply bind_step; [ apply (this_ref_run ampEnv _ _ _ He) | cbv beta ].
    eapply bind_step; [ apply (this_ref_run ampEnv _ _ _ He) | cbv beta ].
    eapply bind_step.
    { unfold get_value.
      eapply bind_step; [ | cbv beta; reflexivity ].
      eapply param_get_run; [ by apply with_param_lookup | ].
      by eapply get_set_param. }
    cbv beta. cbn [param_value param_events].
    eapply bind_step.
    { unfold setValueAtTime.
      eapply bind_step.
      - eapply param_get_run; [ by apply with_param_lookup | ].
        by eapply get_set_param.
      - cbv beta. erewrite param_put_run by (by apply with_param_lookup).
        rewrite with_param_again. cbn [param_value param_events].
        reflexivity. }
    cbv beta.
    eapply bind_step; [ apply (this_ref_run ampEnv _ _ _ He) | cbv beta ].
    eapply bind_step; [ reflexivity | cbv beta ].
    eapply (bind_step _ _ _ {| this := v; ctx := h3 |} tt).
    { unfold linearRampToValueAtTime.
      eapply bind_step.
      - eapply param_get_run; [ by apply with_param_lookup | ].
        by eapply get_set_param.
      - cbv beta.
        eapply bind_step; [ reflexivity | cbv beta ].
        cbv zeta. cbn [this ctx param_value param_events].
        erewrite param_put_run by (by apply with_param_lookup).
        rewrite with_param_again. cbn [with_nodes currentTime].
        fold t1 g evs. rewrite Hrel, E1, E2, E3, <- app_assoc.
        reflexivity. }
    cbv beta.
    eapply bind_step; [ reflexivity | cbv beta zeta ].
    eapply bind_step; [ apply (this_ref_run osc _ _ _ F1) | cbv beta ].
    eapply bind_step; [ exact R1 | cbv beta ].
    eapply bind_step; [ apply (this_ref_run osc2 _ _ _ F2) | cbv beta ].
    eapply bind_step; [ exact R2 | cbv beta ].
    eapply bind_step; [ apply (this_ref_run osc3 _ _ _ F3) | cbv beta ].
    eapply bind_step; [ exact R3 | cbv beta ].
    eapply bind_step; [ apply (this_ref_run ringModModulator _ _ _ F4) | cbv beta ].
    exact R4. }
  destruct I7 as (Hl7 & _ & HS7).
  split; [ reflexivity | ].
  split.
  { unfold param_of, node_of. cbn [this ctx]. rewrite He, Hl7. exact Hp'. }
  cbv zeta. fold t1 g evs. unfold p'.
  split; [ reflexivity | ].
  split; [ exact Hevs | ].
  split.
  { rewrite (release_timeline evs g g t1 Hevs t1) by lra.
    assert (E0 : (t1 - t1 == 0)%Q) by lra. rewrite E0. field. }
  split; [ intros t H1 H2; by apply release_timeline | ].
  split.
  { rewrite (release_timeline evs g g t1 Hevs (t1 + 0.5)) by lra.
    assert (E0 : (t1 + 0.5 - t1 == 0.5)%Q) by lra. rewrite E0. field. }
  split; [ intros Hg; by apply release_strict | ].
  unfold stopped_at. cbn [this ctx].
  rewrite Forall_forall in HS7.
  repeat split; apply HS7; set_solver.
Qed.

(** [start] leaves a running voice, whatever the context. *)
Lemma start_running (c : ContextRef) (f m : Q) (out : nat)
    (h : BaseAudioContext) :
  running (after_start c f m out h).
Proof.
  unfold running, started_oscillator, osc_state, param_of, node_of,
    after_start.
  cbn [this ctx nodes started_voice osc osc2 osc3 ringModModulator ampEnv
       release].
  repeat split.
  - eexists _, _. split; [ reflexivity | ].
    rewrite <- (Nat.add_0_r (length (nodes h))) at 1.
    rewrite store_lookup. cbn. split; [ reflexivity | ]. by eexists.
  - eexists _, _. split; [ reflexivity | ].
    rewrite store_lookup. cbn. split; [ reflexivity | ]. by eexists.
  - eexists _, _. split; [ reflexivity | ].
    rewrite store_lookup. cbn. split; [ reflexivity | ]. by eexists.
  - eexists _, _. split; [ reflexivity | ].
    rewrite store_lookup. cbn. split; [ reflexivity | ]. by eexists.
  - rewrite store_lookup. cbn. by eexists.
Qed.

Lemma held_note_running : running held_note.
Proof.
  unfold running, started_oscillator, osc_state.
  repeat split;
    try (eexists _, _; split; [ vm_compute; reflexivity | ];
         split; [ vm_compute; reflexivity | ]);
    vm_compute; by eexists.
Qed.

Lemma stop_release_witness :
  running held_note /\
  exists (w' : World) (p' : AudioParam),
    stop held_note = (Normal tt, w') /\
    param_of w' (ampEnv (this w')) P_gain = Some p' /\
    (value_at p' 1 == 0.4)%Q /\
    (value_at p' 1.25 == 0.2)%Q /\
    (value_at p' (1 + 0.5) == 0)%Q /\
    strictly_monotonic_on p' 1 (1 + 0.5) /\
    stopped_at w' (osc (this w')) (1 + 0.51).
Proof.
  split; [ exact held_note_running | ].
  destruct (stop_release held_note held_note_running)
    as (p & p' & w' & Hp & Hstop & _ & Hp' & _ & _ & H1 & Hline & H2 & Hmono
        & S1 & _).
  vm_compute in Hp. injection Hp as <-.
  change (currentTime (ctx held_note)) with 1%Q in *.
  cbn [param_value] in *.
  exists w', p'. split; [ exact Hstop | ]. split; [ exact Hp' | ].
  split; [ rewrite H1; reflexivity | ].
  split; [ rewrite (Hline 1.25%Q) by lra; reflexivity | ].
  split; [ exact H2 | ].
  split; [ | exact S1 ].
  apply Hmono. intros E. discriminate E.
Defined.

(** C5, as stated, fails where the gain is 0 when [stop] is called, for
    instance when [stop] follows [start] at once: the release is then the
    constant 0, which is not strictly monotonic. *)
Lemma release_ramp_not_strict :
  exists (w1 w' : World) (p p' : AudioParam),
    start scenario_A = (Normal tt, w1) /\
    param_of w1 (ampEnv (this w1)) P_gain = Some p /\
    (param_value p == 0)%Q /\
    stop w1 = (Normal tt, w') /\
    param_of w' (ampEnv (this w')) P_gain = Some p' /\
    ~ strictly_monotonic_on p' (currentTime (ctx w1))
        (currentTime (ctx w1) + 0.5).
Proof.
  eexists _, _, _, _.
  split; [ vm_compute; reflexivity | ].
  split; [ vm_compute; reflexivity | ].
  split; [ reflexivity | ].
  split; [ vm_compute; reflexivity | ].
  split; [ vm_compute; reflexivity | ].
  intros [H | H]; specialize (H 0%Q 0.25%Q);
    vm_compute in H; specialize (H ltac:(discriminate) eq_refl ltac:(discriminate));
    discriminate H.
Qed.

(** ** [dispose] *)

Lemma holds_nodes_ids (v : Voice) :
  holds_nodes v ->
  exists i1 i2 i3 i4 i5 i6 i7 i8 i9 : nat,
    osc v = Obj i1 /\ osc2 v = Obj i2 /\ osc2scale v = Obj i3 /\
    osc3 v = Obj i4 /\ osc3scale v = Obj i5 /\ ringModGain v = Obj i6 /\
    ringModModulator v = Obj i7 /\ ampEnv v = Obj i8 /\ lpFilter v = Obj i9.
Proof.
  unfold holds_nodes, node_fields. intros H.
  repeat match goal with
  | H : Forall _ (?r :: _) |- _ =>
      let Hr := fresh "Hr" in
      apply Forall_cons in H as [Hr H];
      destruct r as [ | | ? ] eqn:?; try discriminate Hr; clear Hr
  end.
  eexists _, _, _, _, _, _, _, _, _. repeat split; reflexivity.
Qed.

(** [dispose] on a voice that holds its nodes: eight nodes lose their
    outgoing connections and eight properties become [null]; the filter is
    not among them. *)
Lemma dispose_run (v : Voice) (h : BaseAudioContext)
    (i1 i2 i3 i4 i5 i6 i7 i8 : nat) :
  osc v = Obj i1 -> osc2 v = Obj i2 -> osc3 v = Obj i3 ->
  osc2scale v = Obj i4 -> osc3scale v = Obj i5 -> ringModGain v = Obj i6 ->
  ringModModulator v = Obj i7 -> ampEnv v = Obj i8 ->
  dispose {| this := v; ctx := h |}
  = (Normal tt,
     {| this := disposed v;
        ctx := {| currentTime := currentTime h; nodes := nodes h;
                  connections :=
                    without_sources [i1; i2; i3; i4; i5; i6; i7; i8]
                                    (connections h) |} |}).
Proof.
  intros H1 H2 H3 H4 H5 H6 H7 H8. unfold dispose.
  eapply bind_step; [ apply (this_ref_run osc _ _ _ H1) | cbv beta ]. step.
  eapply bind_step; [ apply (this_ref_run osc2 _ _ _ H2) | cbv beta ]. step.
  eapply bind_step; [ apply (this_ref_run osc3 _ _ _ H3) | cbv beta ]. step.
  eapply bind_step; [ apply (this_ref_run osc2scale _ _ _ H4) | cbv beta ].
  step.
  eapply bind_step; [ apply (this_ref_run osc3scale _ _ _ H5) | cbv beta ].
  step.
  eapply bind_step; [ apply (this_ref_run ringModGain _ _ _ H6) | cbv beta ].
  step.
  eapply bind_step;
    [ apply (this_ref_run ringModModulator _ _ _ H7) | cbv beta ].
  step.
  eapply bind_step; [ apply (this_ref_run ampEnv _ _ _ H8) | cbv beta ]. step.
  do 7 step.
  unfold this_set, without_sources, disposed. cbn. reflexivity.
Qed.

(** After [dispose] the first line of [dispose] throws. *)
Lemma dispose_disposed (v : Voice) (h : BaseAudioContext) :
  dispose {| this := disposed v; ctx := h |}
  = (Throw TypeError, {| this := disposed v; ctx := h |}).
Proof. unfold dispose. apply bind_throw. reflexivity. Qed.

Lemma without_sources_keeps (P : Connection -> Prop) (ids : list nat)
    (cs : list Connection) :
  Forall P cs -> Forall P (without_sources ids cs).
Proof.
  unfold without_sources. revert cs.
  induction ids as [ | a ids IH ]; intros cs H; cbn; [ exact H | ].
  apply IH. apply Forall_forall. intros e He.
  apply list_elem_of_In, filter_In in He as [He _].
  rewrite Forall_forall in H. apply H. by apply list_elem_of_In.
Qed.

Lemma without_sources_removes (id : nat) (ids : list nat)
    (cs : list Connection) :
  id ∈ ids -> Forall (fun e => fst e <> id) (without_sources ids cs).
Proof.
  unfold without_sources. revert cs.
  induction ids as [ | a ids IH ]; intros cs Hin; [ by apply elem_of_nil in Hin | ].
  cbn. apply elem_of_cons in Hin as [-> | Hin]; [ | by apply IH ].
  apply (without_sources_keeps (fun e => fst e <> a)).
  apply Forall_forall. intros e He.
  apply list_elem_of_In, filter_In in He as [_ He].
  apply negb_true_iff, Nat.eqb_neq in He. exact He.
Qed.

Lemma successors_removed (h : BaseAudioContext) (id : nat) :
  Forall (fun e : Connection => fst e <> id) (connections h) ->
  successors h id = [].
Proof.
  intros H. unfold successors. rewrite filter_none; [ reflexivity | ].
  eapply Forall_impl; [ exact H | ].
  intros e He. by apply Nat.eqb_neq.
Qed.

(** C2 (amended). For every voice that holds its nodes, as after [start],
    a first [dispose] completes normally, leaves the eight nodes it
    disconnects without outgoing connection and sets their eight properties
    to [null]; a second [dispose] in succession then throws a TypeError at
    its first line, where it reads [this.osc], and changes nothing. *)
Theorem dispose_twice (w : World) :
  holds_nodes (this w) ->
  exists w1 : World,
    dispose w = (Normal tt, w1) /\
    Forall (fun r => r = Null) (disposed_fields (this w1)) /\
    (forall id : nat, Obj id ∈ disposed_fields (this w) ->
                      successors (ctx w1) id = []) /\
    dispose w1 = (Throw TypeError, w1).
Proof.
  destruct w as [v h]. cbn [this]. intros Hv.
  destruct (holds_nodes_ids v Hv)
    as (i1 & i2 & i3 & i4 & i5 & i6 & i7 & i8 & i9 & H1 & H2 & H3 & H4 & H5
        & H6 & H7 & H8 & H9).
  eexists. split; [ by eapply dispose_run | ].
  cbn [this ctx]. split; [ repeat constructor | ].
  split; [ | apply dispose_disposed ].
  intros id Hid. apply successors_removed. cbn [connections].
  apply without_sources_removes.
  unfold disposed_fields in Hid. rewrite H1, H2, H3, H4, H5, H6, H7, H8 in Hid.
  repeat (apply elem_of_cons in Hid as [E | Hid];
          [ injection E as ->; repeat constructor | ]).
  by apply elem_of_nil in Hid.
Qed.

Lemma start_holds_nodes (c : ContextRef) (f m : Q) (out : nat)
    (h : BaseAudioContext) :
  holds_nodes (this (after_start c f m out h)).
Proof. repeat constructor. Qed.

Lemma dispose_twice_witness :
  holds_nodes (this (after_start the_context 440 0.8 0 studio)) /\
  exists w1 : World,
    dispose (after_start the_context 440 0.8 0 studio) = (Normal tt, w1) /\
    successors (ctx w1) 8 = [] /\
    dispose w1 = (Throw TypeError, w1).
Proof.
  split; [ apply start_holds_nodes | ].
  destruct (dispose_twice (after_start the_context 440 0.8 0 studio)
              (start_holds_nodes the_context 440 0.8 0 studio))
    as (w1 & Hrun & _ & Hsucc & Hthrow).
  exists w1. split; [ exact Hrun | ]. split; [ | exact Hthrow ].
  apply Hsucc. cbn. repeat constructor.
Defined.

(** C2, as stated, fails on the voice of scenario A: the second [dispose]
    throws, and the connection from the filter to the sink is still
    there. *)
Lemma second_dispose_throws :
  exists w1 w2 : World,
    start scenario_A = (Normal tt, w1) /\
    (dispose;; dispose) w1 = (Throw TypeError, w2) /\
    inputs_of (ctx w2) (ToNode (output (this w2))) = [9%nat].
Proof.
  eexists _, _.
  split; [ vm_compute; reflexivity | ].
  split; vm_compute; reflexivity.
Qed.

(** C1 (as the code behaves). On the voice of scenario A, started, held
    for a second, stopped, and disposed of by the [ended] event of the
    primary oscillator: the life cycle completes normally and eight
    properties are [null], but the voice still holds the filter node and
    the filter is still connected to the sink, whose incoming-connection
    count is 1 where it was 0 before [start]. *)
Theorem dispose_leaves_filter :
  exists w' : World,
    life_cycle scenario_A = (Normal tt, w') /\
    Forall (fun r => r = Null) (disposed_fields (this w')) /\
    lpFilter (this w') = Obj 9 /\
    nodes_held (this w') = [9%nat] /\
    connections (ctx w') = [(9%nat, ToNode 0)] /\
    in_degree (ctx w') 0 = 1%nat /\
    in_degree (ctx scenario_A) 0 = 0%nat.
Proof.
  eexists. split; [ vm_compute; reflexivity | ].
  split; [ repeat constructor | ].
  repeat split.
Qed.

Lemma filter_all {A : Type} (f : A -> bool) (l : list A) :
  Forall (fun x => f x = true) l -> List.filter f l = l.
Proof.
  induction 1 as [ | x l Hx _ IH ]; [ reflexivity | ].
  cbn. rewrite Hx, IH. reflexivity.
Qed.

Lemma without_sources_app (ids : list nat) (a b : list Connection) :
  without_sources ids (a ++ b)
  = without_sources ids a ++ without_sources ids b.
Proof.
  unfold without_sources. revert a b.
  induction ids as [ | i ids IH ]; intros a b; cbn; [ reflexivity | ].
  rewrite List.filter_app. apply IH.
Qed.

Lemma without_sources_old (h : BaseAudioContext) (ids : list nat) :
  closed_graph h -> Forall (fun i => (length (nodes h) <= i)%nat) ids ->
  without_sources ids (connections h) = connections h.
Proof.
  intros Hc Hids. unfold without_sources.
  induction Hids as [ | i ids Hi _ IH ]; cbn; [ reflexivity | ].
  rewrite filter_all; [ exact IH | ].
  eapply Forall_impl; [ exact Hc | ].
  intros [s d] [Hs _]. cbn in *. apply negb_true_iff, Nat.eqb_neq. lia.
Qed.

(** The defect does not depend on the scenario: on every closed graph,
    [dispose] after [start] leaves the filter held and connected, and the
    sink with one connection more than before [start]. *)
Lemma dispose_after_start (c : ContextRef) (f m : Q) (out : nat)
    (h : BaseAudioContext) :
  closed_graph h -> (out < length (nodes h))%nat ->
  exists w1 : World,
    (start;; dispose) {| this := constructor c f m out; ctx := h |}
    = (Normal tt, w1) /\
    lpFilter (this w1) = Obj (length (nodes h) + 8) /\
    connections (ctx w1)
    = connections h ++ [((length (nodes h) + 8)%nat, ToNode out)] /\
    in_degree (ctx w1) out = S (in_degree h out).
Proof.
  intros Hc Hout. eexists. split.
  { eapply bind_step; [ apply start_run | cbv beta ].
    unfold after_start. eapply dispose_run; reflexivity. }
  cbn [this ctx lpFilter disposed started_voice connections].
  split; [ reflexivity | ].
  rewrite (start_connections out h Hc).
  assert (E : without_sources
                [length (nodes h); (length (nodes h) + 1)%nat;
                 (length (nodes h) + 3)%nat; (length (nodes h) + 2)%nat;
                 (length (nodes h) + 4)%nat; (length (nodes h) + 5)%nat;
                 (length (nodes h) + 6)%nat; (length (nodes h) + 7)%nat]
                (connections h ++ voice_edges (length (nodes h)) out)
              = connections h ++ [((length (nodes h) + 8)%nat, ToNode out)]).
  { rewrite without_sources_app, (without_sources_old h _ Hc)
      by (repeat constructor; lia).
    f_equal. unfold without_sources, voice_edges. cbn.
    decide_indices. reflexivity. }
  rewrite E. split; [ reflexivity | ].
  unfold in_degree, inputs_of. cbn [connections].
  rewrite List.filter_app, map_app, length_app. cbn.
  rewrite Nat.eqb_refl. cbn. apply Nat.add_1_r.
Qed.

(** * Further properties of the class *)

(** ** [start] on any voice *)

(** [start] reads none of the node references of the voice: whatever they
    hold, it runs as on a new voice. *)
Lemma start_any (v : Voice) (h : BaseAudioContext) :
  attack v = 0.02%Q -> decay v = 0.01%Q -> sustain v = 0.5%Q ->
  release v = 0.5%Q ->
  start {| this := v; ctx := h |}
  = (Normal tt,
     after_start (context v) (frequency v) (maxAmp v) (output v) h).
Proof.
  destruct v as [c f m out a d s r r1 r2 r3 r4 r5 r6 r7 r8 r9].
  cbn [attack decay sustain release context frequency maxAmp output].
  intros -> -> -> ->.
  destruct h as [t0 pre conns]. unfold after_start, start. cbn.
  rewrite <- (app_nil_r pre) at 1.
  repeat step.
  unfold_prims; crunch. rewrite !Nat.add_0_r.
  reflexivity.
Qed.



Lemma inputs_of_app (t0 : Q) (ns : list AudioNode) (cs es : list Connection)
    (d : Destination) :
  inputs_of {| currentTime := t0; nodes := ns; connections := cs ++ es |} d
  = inputs_of {| currentTime := t0; nodes := ns; connections := cs |} d
    ++ inputs_of {| currentTime := t0; nodes := ns; connections := es |} d.
Proof.
  unfold inputs_of. cbn [connections].
  by rewrite List.filter_app, map_app.
Qed.

(** The connections [start] makes that enter an existing node: one, into
    the sink. *)
Lemma voice_edges_into (t0 : Q) (ns : list AudioNode) (N out id : nat) :
  (out < N)%nat -> (id < N)%nat ->
  inputs_of {| currentTime := t0; nodes := ns;
               connections := voice_edges N out |} (ToNode id)
  = if Nat.eqb out id then [(N + 8)%nat] else [].
Proof.
  intros Hout Hid. unfold inputs_of, voice_edges. cbn.
  repeat match goal with
  | |- context [Nat.eqb (N + ?k) id] =>
      rewrite (proj2 (Nat.eqb_neq (N + k) id)) by lia
  end.
  cbn. destruct (Nat.eqb out id); reflexivity.
Qed.

(** X2. On a closed graph whose sink is a node of the store, [start] adds
    exactly its nine connections after the ones that were there; the sink
    gets one incoming connection more, every other node that was there
    gets none, and no node that was there gets a new outgoing
    connection. *)
Theorem start_touches_only_sink (c : ContextRef) (f m : Q) (out : nat)
    (h : BaseAudioContext) :
  closed_graph h -> (out < length (nodes h))%nat ->
  exists w' : World,
    start {| this := constructor c f m out; ctx := h |} = (Normal tt, w') /\
    connections (ctx w')
    = connections h ++ voice_edges (length (nodes h)) out /\
    in_degree (ctx w') out = S (in_degree h out) /\
    (forall id : nat, (id < length (nodes h))%nat -> id <> out ->
       in_degree (ctx w') id = in_degree h id) /\
    (forall id : nat, (id < length (nodes h))%nat ->
       successors (ctx w') id = successors h id).
Proof.
  intros Hc Hout.
  exists (after_start c f m out h). split; [ apply start_run | ].
  rewrite (start_graph c f m out h Hc). cbn [connections].
  split; [ reflexivity | ].
  unfold in_degree.
  split; [ | split ].
  - rewrite inputs_of_app, length_app, voice_edges_into by lia.
    rewrite Nat.eqb_refl. cbn [length].
    rewrite Nat.add_1_r. reflexivity.
  - intros id Hid Hne.
    rewrite inputs_of_app, length_app, voice_edges_into by lia.
    rewrite (proj2 (Nat.eqb_neq out id)) by lia. cbn [length].
    rewrite Nat.add_0_r. reflexivity.
  - intros id Hid. unfold successors. cbn [connections].
    rewrite List.filter_app, map_app.
    rewrite (filter_none _ (voice_edges (length (nodes h)) out)).
    + by rewrite app_nil_r.
    + unfold voice_edges. repeat constructor; cbn; apply Nat.eqb_neq; lia.
Qed.

Lemma start_touches_only_sink_witness :
  closed_graph studio /\ (0 < length (nodes studio))%nat /\
  in_degree (ctx (snd (start scenario_A))) 0 = 1%nat.
Proof.
  assert (Hl : (0 < length (nodes studio))%nat) by (cbn; lia).
  split; [ exact studio_closed | ]. split; [ exact Hl | ].
  destruct (start_touches_only_sink the_context 440 0.8 0 studio
              studio_closed Hl) as (w' & Hrun & _ & Hin & _).
  unfold scenario_A. rewrite Hrun. exact Hin.
Defined.

(** X3. [start] has no guard against a second call.  On a closed graph
    whose sink is a node of the store, [start] twice completes normally:
    the voice then refers to the nine nodes of the second call only, the
    nine connections of the first call are all still there, and the sink
    has two incoming connections more than before. *)
Theorem start_twice_leaks (c : ContextRef) (f m : Q) (out : nat)
    (h : BaseAudioContext) :
  closed_graph h -> (out < length (nodes h))%nat ->
  exists w2 : World,
    (start;; start) {| this := constructor c f m out; ctx := h |}
    = (Normal tt, w2) /\
    this w2 = started_voice c f m out (length (nodes h) + 9) /\
    connections (ctx w2)
    = (connections h ++ voice_edges (length (nodes h)) out)
        ++ voice_edges (length (nodes h) + 9) out /\
    in_degree (ctx w2) out = S (S (in_degree h out)).
Proof.
  intros Hc Hout.
  pose proof (start_keeps_closed c f m out h Hc Hout) as Hc1.
  assert (Hlen : length (nodes (ctx (after_start c f m out h)))
                 = (length (nodes h) + 9)%nat)
    by (unfold after_start; cbn [ctx nodes]; by rewrite length_app).
  exists (after_start c f m out (ctx (after_start c f m out h))).
  split.
  { eapply bind_step; [ apply start_run | cbv beta ].
    exact (start_any (this (after_start c f m out h))
             (ctx (after_start c f m out h)) eq_refl eq_refl eq_refl eq_refl). }
  split; [ unfold after_start at 1; cbn [this]; by rewrite Hlen | ].
  rewrite (start_graph c f m out _ Hc1). cbn [connections].
  rewrite Hlen, (start_graph c f m out h Hc). cbn [connections].
  split; [ reflexivity | ].
  unfold in_degree.
  rewrite !inputs_of_app, !length_app, !voice_edges_into by lia.
  rewrite Nat.eqb_refl. cbn [length]. rewrite <- Nat.add_assoc. cbn.
  rewrite Nat.add_comm. reflexivity.
Qed.

Lemma start_twice_leaks_witness :
  closed_graph studio /\ (0 < length (nodes studio))%nat /\
  exists w2 : World,
    (start;; start) scenario_A = (Normal tt, w2) /\
    nodes_held (this w2) = [10; 11; 12; 13; 14; 15; 16; 17; 18]%nat /\
    in_degree (ctx w2) 0 = 2%nat.
Proof.
  assert (Hl : (0 < length (nodes studio))%nat) by (cbn; lia).
  split; [ exact studio_closed | ]. split; [ exact Hl | ].
  destruct (start_twice_leaks the_context 440 0.8 0 studio studio_closed Hl)
    as (w2 & Hrun & Hthis & _ & Hin).
  exists w2. split; [ exact Hrun | ].
  split; [ rewrite Hthis; reflexivity | exact Hin ].
Defined.

(** X4. For every new voice and every context, after [start] the four
    oscillators are started at the time of the call and none has a stop
    time; the primary oscillator carries the handler that runs [dispose]
    when it ends, and the other three carry no handler. *)
Theorem oscillators_started (c : ContextRef) (f m : Q) (out : nat)
    (h : BaseAudioContext) :
  exists (w' : World) (o1 o2 o3 om : OscillatorNode),
    start {| this := constructor c f m out; ctx := h |} = (Normal tt, w') /\
    oscillator_of w' (osc (this w')) = Some o1 /\
    oscillator_of w' (osc2 (this w')) = Some o2 /\
    oscillator_of w' (osc3 (this w')) = Some o3 /\
    oscillator_of w' (ringModModulator (this w')) = Some om /\
    Forall (fun o => osc_startTime o = Some (currentTime h) /\
                     osc_stopTime o = None) [o1; o2; o3; om] /\
    onended o1 = Some BoundDispose /\
    Forall (fun o => onended o = None) [o2; o3; om].
Proof.
  eexists _, _, _, _, _. split; [ apply start_run | ].
  unfold oscillator_of, node_of, after_start. cbn.
  replace (length (nodes h)) with (length (nodes h) + 0)%nat at 1 by lia.
  rewrite !store_lookup. cbn.
  repeat (split; [ reflexivity | ]).
  split; [ repeat constructor | ].
  split; [ reflexivity | repeat constructor ].
Qed.

(** X5. [start] has no guard against a voice that was disposed of either:
    after [start] and [dispose], a further [start] completes normally and
    leaves a running voice that holds nine new nodes. *)
Theorem start_after_dispose (c : ContextRef) (f m : Q) (out : nat)
    (h : BaseAudioContext) :
  exists w3 : World,
    (start;; dispose;; start) {| this := constructor c f m out; ctx := h |}
    = (Normal tt, w3) /\
    this w3 = started_voice c f m out (length (nodes h) + 9) /\
    holds_nodes (this w3) /\
    running w3.
Proof.
  eexists. split.
  { eapply bind_step; [ apply start_run | cbv beta ].
    eapply bind_step;
      [ unfold after_start; eapply dispose_run; reflexivity | cbv beta ].
    apply start_any; reflexivity. }
  cbn [context frequency maxAmp output disposed started_voice].
  split; [ unfold after_start; cbn [this nodes]; by rewrite length_app | ].
  split; [ apply start_holds_nodes | apply start_running ].
Qed.

(** ** The envelope between its breakpoints *)

Section Envelope.
Variables (m t0 : Q).

Lemma envelope_before (t : Q) :
  (t < t0)%Q -> (value_at (scheduled_envelope m t0) t == 0)%Q.
Proof.
  intros Ht. unfold value_at, scheduled_envelope. cbn.
  rewrite (Qle_bool_false t0 t) by lra. reflexivity.
Qed.

Lemma envelope_attack (t : Q) :
  (t0 <= t)%Q -> (t <= t0 + 0.02)%Q ->
  (value_at (scheduled_envelope m t0) t == m * ((t - t0) / 0.02))%Q.
Proof.
  intros H1 H2. unfold value_at, scheduled_envelope. cbn.
  rewrite (Qle_bool_true t0 t) by lra.
  destruct (Qle_bool (t0 + 0.02) t) eqn:E.
  - apply Qle_bool_iff in E. assert (Et : (t == t0 + 0.02)%Q) by lra.
    rewrite (Qle_bool_false (t0 + 0.02 + 0.01) t) by lra.
    rewrite Et. field. lra.
  - assert (Ed : (t0 + 0.02 - t0 == 0.02)%Q) by lra.
    rewrite Ed. field.
Qed.

Lemma envelope_decay (t : Q) :
  (t0 + 0.02 <= t)%Q -> (t <= t0 + 0.03)%Q ->
  (value_at (scheduled_envelope m t0) t
   == m - 0.5 * m * ((t - (t0 + 0.02)) / 0.01))%Q.
Proof.
  intros H1 H2. unfold value_at, scheduled_envelope. cbn.
  rewrite (Qle_bool_true t0 t), (Qle_bool_true (t0 + 0.02) t) by lra.
  destruct (Qle_bool (t0 + 0.02 + 0.01) t) eqn:E.
  - apply Qle_bool_iff in E. assert (Et : (t == t0 + 0.03)%Q) by lra.
    rewrite Et. field.
  - assert (Ed : (t0 + 0.02 + 0.01 - (t0 + 0.02) == 0.01)%Q) by lra.
    rewrite Ed. field.
Qed.

Lemma envelope_sustain (t : Q) :
  (t0 + 0.03 <= t)%Q ->
  (value_at (scheduled_envelope m t0) t == 0.5 * m)%Q.
Proof.
  intros H1. unfold value_at, scheduled_envelope. cbn.
  rewrite !Qle_bool_true by lra. reflexivity.
Qed.

Lemma envelope_bounded (t : Q) :
  (0 <= m)%Q ->
  (0 <= value_at (scheduled_envelope m t0) t)%Q /\
  (value_at (scheduled_envelope m t0) t <= m)%Q.
Proof.
  intros Hm.
  destruct (Qlt_le_dec t t0) as [Hb | H0].
  { rewrite (envelope_before t Hb). split; lra. }
  destruct (Qlt_le_dec t (t0 + 0.02)) as [Ha | H1].
  { rewrite (envelope_attack t) by lra.
    assert (E : ((t - t0) / 0.02 == 50 * (t - t0))%Q) by field.
    rewrite E. split; nra. }
  destruct (Qlt_le_dec t (t0 + 0.03)) as [Hd | H2].
  { rewrite (envelope_decay t) by lra.
    assert (E : ((t - (t0 + 0.02)) / 0.01 == 100 * (t - (t0 + 0.02)))%Q)
      by field.
    rewrite E. split; nra. }
  rewrite (envelope_sustain t H2). split; lra.
Qed.

End Envelope.

Lemma start_envelope (c : ContextRef) (f m : Q) (out : nat)
    (h : BaseAudioContext) :
  param_of (after_start c f m out h)
           (ampEnv (this (after_start c f m out h))) P_gain
  = Some (scheduled_envelope m (currentTime h)).
Proof.
  unfold param_of, node_of, after_start. cbn.
  rewrite store_lookup. reflexivity.
Qed.

(** X6. For every new voice with [maxAmp = m] started at [t0], the gain
    scheduled by [start] is 0 before [t0], rises on a straight line from 0
    at [t0] to [m] at [t0 + 0.02], and falls on a straight line from [m]
    to [0.5 * m] at [t0 + 0.03]. *)
Theorem envelope_segments (c : ContextRef) (f m : Q) (out : nat)
    (h : BaseAudioContext) :
  exists (w' : World) (p : AudioParam),
    start {| this := constructor c f m out; ctx := h |} = (Normal tt, w') /\
    param_of w' (ampEnv (this w')) P_gain = Some p /\
    let t0 := currentTime h in
    forall t : Q,
      ((t < t0)%Q -> (value_at p t == 0)%Q) /\
      ((t0 <= t)%Q -> (t <= t0 + 0.02)%Q ->
       (value_at p t == m * ((t - t0) / 0.02))%Q) /\
      ((t0 + 0.02 <= t)%Q -> (t <= t0 + 0.03)%Q ->
       (value_at p t == m - 0.5 * m * ((t - (t0 + 0.02)) / 0.01))%Q).
Proof.
  eexists _, _. split; [ apply start_run | ].
  split; [ apply start_envelope | ].
  intros t0 t. split; [ apply envelope_before | ].
  split; [ apply envelope_attack | apply envelope_decay ].
Qed.

Lemma envelope_segments_witness :
  exists p : AudioParam,
    param_of (snd (start scenario_A)) (Obj 8) P_gain = Some p /\
    (value_at p 0.01 == 0.4)%Q /\ (value_at p 0.025 == 0.6)%Q.
Proof.
  destruct (envelope_segments the_context 440 0.8 0 studio)
    as (w' & p & Hrun & Hp & Hseg).
  exists p. unfold scenario_A. rewrite Hrun. cbn [snd].
  split.
  { rewrite start_run in Hrun. injection Hrun as <-. exact Hp. }
  cbv zeta in Hseg. change (currentTime studio) with 0%Q in Hseg.
  split.
  - destruct (Hseg 0.01%Q) as (_ & Ha & _). rewrite Ha by lra. reflexivity.
  - destruct (Hseg 0.025%Q) as (_ & _ & Hd). rewrite Hd by lra. reflexivity.
Defined.

(** X7. For every new voice whose [maxAmp = m] is not negative, the gain
    scheduled by [start] stays between 0 and [m] at every time. *)
Theorem envelope_within_maxAmp (c : ContextRef) (f m : Q) (out : nat)
    (h : BaseAudioContext) :
  (0 <= m)%Q ->
  exists (w' : World) (p : AudioParam),
    start {| this := constructor c f m out; ctx := h |} = (Normal tt, w') /\
    param_of w' (ampEnv (this w')) P_gain = Some p /\
    forall t : Q, (0 <= value_at p t)%Q /\ (value_at p t <= m)%Q.
Proof.
  intros Hm. eexists _, _. split; [ apply start_run | ].
  split; [ apply start_envelope | ].
  intros t. by apply envelope_bounded.
Qed.

Lemma envelope_within_maxAmp_witness :
  (0 <= 0.8)%Q /\
  exists p : AudioParam,
    param_of (snd (start scenario_A)) (Obj 8) P_gain = Some p /\
    (value_at p 0.015 <= 0.8)%Q.
Proof.
  assert (Hm : (0 <= 0.8)%Q) by lra.
  split; [ exact Hm | ].
  destruct (envelope_within_maxAmp the_context 440 0.8 0 studio Hm)
    as (w' & p & Hrun & Hp & Hb).
  exists p. unfold scenario_A. rewrite Hrun. cbn [snd].
  split; [ | apply Hb ].
  rewrite start_run in Hrun. injection Hrun as <-. exact Hp.
Defined.

(** ** What [stop] leaves alone *)

Lemma differs_insert (h : BaseAudioContext) (i : nat) (x : AudioNode) :
  differs_only_at [i] h (with_nodes h (<[i := x]> (nodes h))).
Proof.
  unfold differs_only_at, with_nodes. cbn.
  repeat split; [ apply length_insert | ].
  intros id Hid. apply list_lookup_insert_ne.
  intros ->. apply Hid. constructor.
Qed.

Lemma differs_trans (ids1 ids2 : list nat) (h h' h'' : BaseAudioContext) :
  differs_only_at ids1 h h' -> differs_only_at ids2 h' h'' ->
  differs_only_at (ids1 ++ ids2) h h''.
Proof.
  intros (T1 & C1 & L1 & F1) (T2 & C2 & L2 & F2).
  repeat split; try congruence.
  intros id Hid. apply not_elem_of_app in Hid as [H1 H2].
  rewrite F2, F1 by assumption. reflexivity.
Qed.

(** One oscillator stopped, with the store that results. *)
Lemma stop_step_frame (fld : Voice -> JSRef) (v : Voice)
    (h : BaseAudioContext) (e : nat) (n : AudioNode) (a : AudioParam)
    (L S : list JSRef) (t ts : Q) :
  stopping h e n L S ts -> get_param n P_gain = Some a ->
  fld v ∈ L -> (t == ts)%Q ->
  exists (i : nat) (h' : BaseAudioContext),
    fld v = Obj i /\
    osc_stop i t {| this := v; ctx := h |}
    = (Normal tt, {| this := v; ctx := h' |}) /\
    stopping h' e n L (fld v :: S) ts /\
    differs_only_at [i] h h'.
Proof.
  intros (He & HL & HS) Ha Hin Ht.
  pose proof HL as HL'. rewrite Forall_forall in HL'.
  destruct (HL' _ Hin) as (i & o & Hf & Hi & Ho).
  exists i, (with_nodes h (<[i := Osc (with_stopTime o t)]> (nodes h))).
  split; [ exact Hf | ].
  split; [ by apply osc_stop_run | ].
  split; [ | apply differs_insert ].
  split; [ by eapply gain_param_kept | ].
  split.
  - eapply Forall_impl; [ exact HL | ].
    intros r Hr. apply osc_state_insert; [ exact Ho | exact Hr ].
  - constructor.
    + rewrite Hf. eapply osc_state_here; [ exact Hi | ].
      by apply with_stopTime_stops.
    + eapply Forall_impl; [ exact HS | ].
      intros r Hr. apply osc_state_insert; [ | exact Hr ].
      by apply with_stopTime_stops.
Qed.

(** [stop] on a running voice, with everything it changes: the gain
    parameter of the envelope node and the stop time of the four
    oscillators. *)
Lemma stop_run (v : Voice) (h : BaseAudioContext) :
  running {| this := v; ctx := h |} ->
  exists (e i1 i2 i3 i4 : nat) (n : AudioNode) (p : AudioParam)
         (h' : BaseAudioContext),
    ampEnv v = Obj e /\ osc v = Obj i1 /\ osc2 v = Obj i2 /\
    osc3 v = Obj i3 /\ ringModModulator v = Obj i4 /\
    nodes h !! e = Some n /\ get_param n P_gain = Some p /\
    stop {| this := v; ctx := h |} = (Normal tt, {| this := v; ctx := h' |}) /\
    differs_only_at [e; i1; i2; i3; i4] h h' /\
    stopping h' e
      (set_param n P_gain
         (released (cancel_events (currentTime h) (param_events p))
                   (param_value p) (param_value p) (currentTime h)))
      [osc v; osc2 v; osc3 v; ringModModulator v]
      [ringModModulator v; osc3 v; osc2 v; osc v]
      (currentTime h + 0.51).
Proof.
  intros (O1 & O2 & O3 & Om & [p Hp] & Hrel). cbn [this ctx] in *.
  unfold started_oscillator in *. cbn [ctx] in *.
  unfold param_of, node_of in Hp. cbn [ctx] in Hp.
  destruct (ampEnv v) as [ | | e ] eqn:He; try discriminate Hp.
  destruct (nodes h !! e) as [ n | ] eqn:Hn; try discriminate Hp.
  set (t1 := currentTime h). set (g := param_value p).
  set (evs := cancel_events t1 (param_events p)).
  pose proof (cancel_events_before t1 (param_events p)) as Hevs.
  fold evs in Hevs.
  set (p' := released evs g g t1).
  set (h3 := with_nodes h (<[e := set_param n P_gain p']> (nodes h))).
  assert (I3 : stopping h3 e (set_param n P_gain p')
                 [osc v; osc2 v; osc3 v; ringModModulator v] [] (t1 + 0.51)).
  { split; [ by apply with_param_lookup | ]. split; [ | constructor ].
    repeat constructor; by eapply osc_state_param. }
  assert (D3 : differs_only_at [e] h h3) by apply differs_insert.
  assert (Hts : (t1 + release v + 0.01 == t1 + 0.51)%Q) by (rewrite Hrel; lra).
  assert (Hp' : get_param (set_param n P_gain p') P_gain = Some p')
    by (by eapply get_set_param).
  assert (M1 : osc v ∈ [osc v; osc2 v; osc3 v; ringModModulator v])
    by repeat constructor.
  assert (M2 : osc2 v ∈ [osc v; osc2 v; osc3 v; ringModModulator v])
    by repeat constructor.
  assert (M3 : osc3 v ∈ [osc v; osc2 v; osc3 v; ringModModulator v])
    by repeat constructor.
  assert (M4 : ringModModulator v
               ∈ [osc v; osc2 v; osc3 v; ringModModulator v])
    by repeat constructor.
  destruct (stop_step_frame osc v h3 e _ _ _ _ _ _ I3 Hp' M1 Hts)
    as (i1 & h4 & F1 & R1 & I4 & D4).
  destruct (stop_step_frame osc2 v h4 e _ _ _ _ _ _ I4 Hp' M2 Hts)
    as (i2 & h5 & F2 & R2 & I5 & D5).
  destruct (stop_step_frame osc3 v h5 e _ _ _ _ _ _ I5 Hp' M3 Hts)
    as (i3 & h6 & F3 & R3 & I6 & D6).
  destruct (stop_step_frame ringModModulator v h6 e _ _ _ _ _ _ I6 Hp' M4 Hts)
    as (i4 & h7 & F4 & R4 & I7 & D7).
  assert (E1 : insert_event (SetValue g t1) evs = evs ++ [SetValue g t1]).
  { apply insert_event_last. eapply Forall_impl; [ exact Hevs | ].
    intros a Ha. cbn in *. lra. }
  assert (E2 : has_preceding (t1 + 0.5) (evs ++ [SetValue g t1]) = true)
    by (apply has_preceding_last; cbn; lra).
  assert (E3 : insert_event (LinearRamp 0 (t1 + 0.5)) (evs ++ [SetValue g t1])
               = (evs ++ [SetValue g t1]) ++ [LinearRamp 0 (t1 + 0.5)]).
  { apply insert_event_last. apply Forall_app. split.
    - eapply Forall_impl; [ exact Hevs | ]. intros a Ha. cbn in *. lra.
    - repeat constructor. cbn. lra. }
  exists e, i1, i2, i3, i4, n, p, h7.
  do 7 (split; [ assumption || reflexivity | ]).
  split.
  { unfold stop.
    eapply bind_step; [ reflexivity | cbv beta ].
    eapply bind_step; [ apply (this_ref_run ampEnv _ _ _ He) | cbv beta ].
    eapply bind_step.
    { unfold cancelScheduledValues.
      eapply bind_step; [ eapply param_get_run; eassumption | cbv beta ].
      eapply param_put_run; eassumption. }
    cbv beta.
    eapply bind_step; [ apply (this_ref_run ampEnv _ _ _ He) | cbv beta ].
    eapply bind_step; [ apply (this_ref_run ampEnv _ _ _ He) | cbv beta ].
    eapply bind_step.
    { unfold get_value.
      eapply bind_step; [ | cbv beta; reflexivity ].
      eapply param_get_run; [ by apply with_param_lookup | ].
      by eapply get_set_param. }
    cbv beta. cbn [param_value param_events].
    eapply bind_step.
    { unfold setValueAtTime.
      eapply bind_step.
      - eapply param_get_run; [ by apply with_param_lookup | ].
        by eapply get_set_param.
      - cbv beta. erewrite param_put_run by (by apply with_param_lookup).
        rewrite with_param_again. cbn [param_value param_events].
        reflexivity. }
    cbv beta.
    eapply bind_step; [ apply (this_ref_run ampEnv _ _ _ He) | cbv beta ].
    eapply bind_step; [ reflexivity | cbv beta ].
    eapply (bind_step _ _ _ {| this := v; ctx := h3 |} tt).
    { unfold linearRampToValueAtTime.
      eapply bind_step.
      - eapply param_get_run; [ by apply with_param_lookup | ].
        by eapply get_set_param.
      - cbv beta.
        eapply bind_step; [ reflexivity | cbv beta ].
        cbv zeta. cbn [this ctx param_value param_events].
        erewrite param_put_run by (by apply with_param_lookup).
        rewrite with_param_again. cbn [with_nodes currentTime].
        fold t1 g evs. rewrite Hrel, E1, E2, E3, <- app_assoc.
        reflexivity. }
    cbv beta.
    eapply bind_step; [ reflexivity | cbv beta zeta ].
    eapply bind_step; [ apply (this_ref_run osc _ _ _ F1) | cbv beta ].
    eapply bind_step; [ exact R1 | cbv beta ].
    eapply bind_step; [ apply (this_ref_run osc2 _ _ _ F2) | cbv beta ].
    eapply bind_step; [ exact R2 | cbv beta ].
    eapply bind_step; [ apply (this_ref_run osc3 _ _ _ F3) | cbv beta ].
    eapply bind_step; [ exact R3 | cbv beta ].
    eapply bind_step;
      [ apply (this_ref_run ringModModulator _ _ _ F4) | cbv beta ].
    exact R4. }
  split; [ | exact I7 ].
  exact (differs_trans [e; i1; i2; i3] [i4] _ _ _
           (differs_trans [e; i1; i2] [i3] _ _ _
              (differs_trans [e; i1] [i2] _ _ _
                 (differs_trans [e] [i1] _ _ _ D3 D4) D5) D6) D7).
Qed.

Lemma stopping_running (v : Voice) (h : BaseAudioContext) (e : nat)
    (n : AudioNode) (a : AudioParam) (S : list JSRef) (ts : Q) :
  ampEnv v = Obj e -> get_param n P_gain = Some a -> release v = 0.5%Q ->
  stopping h e n [osc v; osc2 v; osc3 v; ringModModulator v] S ts ->
  running {| this := v; ctx := h |}.
Proof.
  intros He Ha Hrel (Hn & HL & _).
  rewrite Forall_forall in HL.
  unfold running, started_oscillator, param_of, node_of. cbn [this ctx].
  rewrite He, Hn, Ha.
  repeat split; try (apply HL; repeat constructor); try assumption.
  by eexists.
Qed.

(** X8. For every running voice, [stop] completes normally and leaves the
    voice running, so that [stop] may be called again and completes
    normally again.  [stop] changes no property of the voice, does not
    move the clock, makes and removes no connection, creates no node, and
    leaves alone every node but the envelope node and the four
    oscillators of the voice. *)
Theorem stop_keeps_running (w : World) :
  running w ->
  exists w' : World,
    stop w = (Normal tt, w') /\
    this w' = this w /\
    running w' /\
    (exists w'' : World, stop w' = (Normal tt, w'')) /\
    currentTime (ctx w') = currentTime (ctx w) /\
    connections (ctx w') = connections (ctx w) /\
    length (nodes (ctx w')) = length (nodes (ctx w)) /\
    forall id : nat,
      Obj id ∉ [ampEnv (this w); osc (this w); osc2 (this w);
                osc3 (this w); ringModModulator (this w)] ->
      nodes (ctx w') !! id = nodes (ctx w) !! id.
Proof.
  destruct w as [v h]. intros Hrun.
  destruct (stop_run v h Hrun)
    as (e & i1 & i2 & i3 & i4 & n & p & h' & He & F1 & F2 & F3 & F4 & Hn & Hp
        & Hstop & (HT & HC & HL & HF) & Hing).
  assert (Hrun' : running {| this := v; ctx := h' |}).
  { eapply stopping_running; [ exact He | | apply Hrun | exact Hing ].
    eapply get_set_param, Hp. }
  exists {| this := v; ctx := h' |}. cbn [this ctx].
  split; [ exact Hstop | ]. split; [ reflexivity | ].
  split; [ exact Hrun' | ].
  split.
  { destruct (stop_run v h' Hrun')
      as (_ & _ & _ & _ & _ & _ & _ & h'' & _ & _ & _ & _ & _ & _ & _ & Hs & _).
    by eexists. }
  repeat (split; [ assumption | ]).
  intros id Hid. apply HF. intros Hin. apply Hid.
  rewrite He, F1, F2, F3, F4.
  repeat (apply elem_of_cons in Hin as [-> | Hin]; [ repeat constructor | ]).
  by apply elem_of_nil in Hin.
Qed.

Lemma stop_keeps_running_witness :
  running held_note /\
  exists w' w'' : World,
    stop held_note = (Normal tt, w') /\
    stop w' = (Normal tt, w'') /\
    nodes (ctx w') !! 9%nat = nodes (ctx held_note) !! 9%nat.
Proof.
  split; [ exact held_note_running | ].
  destruct (stop_keeps_running held_note held_note_running)
    as (w' & Hstop & _ & _ & [w'' Hagain] & _ & _ & _ & Hframe).
  exists w', w''. split; [ exact Hstop | ]. split; [ exact Hagain | ].
  apply Hframe. vm_compute. intros Hin.
  repeat (apply elem_of_cons in Hin as [E | Hin]; [ discriminate E | ]).
  by apply elem_of_nil in Hin.
Defined.

Lemma release_end (evs : list AutomationEvent) (v0 g t1 t : Q) :
  Forall (fun e => (ev_time e < t1)%Q) evs -> (t1 + 0.5 <= t)%Q ->
  (value_at (released evs v0 g t1) t == 0)%Q.
Proof.
  intros Hall Ht. unfold value_at, released. cbn [param_value param_events].
  rewrite value_from_past; [ | | lra ].
  2:{ eapply Forall_impl; [ exact Hall | ]. intros e He. cbn in He. lra. }
  cbn [value_from]. rewrite (Qle_bool_true _ _ Ht). reflexivity.
Qed.

Lemma release_bounded (evs : list AutomationEvent) (v0 g t1 t : Q) :
  Forall (fun e => (ev_time e < t1)%Q) evs -> (0 <= g)%Q -> (t1 <= t)%Q ->
  (0 <= value_at (released evs v0 g t1) t)%Q /\
  (value_at (released evs v0 g t1) t <= g)%Q.
Proof.
  intros Hall Hg Ht.
  destruct (Qlt_le_dec (t1 + 0.5) t) as [Hlate | Hin].
  - rewrite (release_end evs v0 g t1 t Hall) by lra. split; lra.
  - rewrite (release_timeline evs v0 g t1 Hall t Ht Hin).
    assert (E : ((t - t1) / 0.5 == 2 * (t - t1))%Q) by field.
    rewrite E. split; nra.
Qed.

(** X9. For every running voice, after [stop] at clock time [t1] the gain
    is 0 from [t1 + 0.5] on, so it is 0 at [t1 + 0.51], when the four
    oscillators stop; and when the gain [g] at the call is not negative,
    the gain stays between 0 and [g] from [t1] on. *)
Theorem stop_fades_to_silence (w : World) :
  running w ->
  exists (p p' : AudioParam) (w' : World),
    param_of w (ampEnv (this w)) P_gain = Some p /\
    stop w = (Normal tt, w') /\
    param_of w' (ampEnv (this w')) P_gain = Some p' /\
    let t1 := currentTime (ctx w) in
    (forall t : Q, (t1 + 0.5 <= t)%Q -> (value_at p' t == 0)%Q) /\
    (value_at p' (t1 + 0.51) == 0)%Q /\
    stopped_at w' (osc (this w')) (t1 + 0.51) /\
    ((0 <= param_value p)%Q ->
     forall t : Q, (t1 <= t)%Q ->
       (0 <= value_at p' t)%Q /\ (value_at p' t <= param_value p)%Q).
Proof.
  destruct w as [v h]. intros Hrun.
  destruct (stop_run v h Hrun)
    as (e & i1 & i2 & i3 & i4 & n & p & h' & He & F1 & F2 & F3 & F4 & Hn & Hp
        & Hstop & _ & (Hn' & _ & HS)).
  pose proof (cancel_events_before (currentTime h) (param_events p)) as Hevs.
  eexists p, _, {| this := v; ctx := h' |}. cbn [this ctx].
  split; [ unfold param_of, node_of; cbn [ctx]; by rewrite He, Hn | ].
  split; [ exact Hstop | ].
  split.
  { unfold param_of, node_of. cbn [ctx]. rewrite He, Hn'.
    eapply get_set_param, Hp. }
  cbv zeta.
  split; [ intros t Ht; by apply release_end | ].
  split; [ apply release_end; [ exact Hevs | lra ] | ].
  split.
  { unfold stopped_at. cbn [ctx]. rewrite Forall_forall in HS.
    apply HS. repeat constructor. }
  intros Hg t Ht. by apply release_bounded.
Qed.

Lemma stop_fades_to_silence_witness :
  running held_note /\
  exists (w' : World) (p' : AudioParam),
    stop held_note = (Normal tt, w') /\
    param_of w' (ampEnv (this w')) P_gain = Some p' /\
    (value_at p' 1.51 == 0)%Q /\ (value_at p' 1.2 <= 0.4)%Q.
Proof.
  split; [ exact held_note_running | ].
  destruct (stop_fades_to_silence held_note held_note_running)
    as (p & p' & w' & Hp & Hstop & Hp' & Hend & _ & _ & Hb).
  vm_compute in Hp. injection Hp as <-.
  change (currentTime (ctx held_note)) with 1%Q in *.
  cbn [param_value] in Hb.
  exists w', p'. split; [ exact Hstop | ]. split; [ exact Hp' | ].
  split; [ apply Hend; lra | ].
  destruct (Hb ltac:(lra) 1.2%Q ltac:(lra)) as [_ Hle]. lra.
Defined.

(** X10. For every voice that holds its nodes, once [dispose] has run,
    [stop] throws a TypeError at [this.ampEnv.gain], which is then [null],
    and changes nothing. *)
Theorem stop_after_dispose (w : World) :
  holds_nodes (this w) ->
  exists w1 : World,
    dispose w = (Normal tt, w1) /\
    stop w1 = (Throw TypeError, w1).
Proof.
  destruct w as [v h]. cbn [this]. intros Hv.
  destruct (holds_nodes_ids v Hv)
    as (i1 & i2 & i3 & i4 & i5 & i6 & i7 & i8 & i9 & H1 & H2 & H3 & H4 & H5
        & H6 & H7 & H8 & H9).
  eexists. split; [ by eapply dispose_run | ].
  unfold stop.
  eapply bind_step; [ reflexivity | cbv beta ].
  apply bind_throw. reflexivity.
Qed.

Lemma stop_after_dispose_witness :
  holds_nodes (this (after_start the_context 440 0.8 0 studio)) /\
  exists w1 : World,
    dispose (after_start the_context 440 0.8 0 studio) = (Normal tt, w1) /\
    stop w1 = (Throw TypeError, w1).
Proof.
  split; [ apply start_holds_nodes | ].
  exact (stop_after_dispose (after_start the_context 440 0.8 0 studio)
           (start_holds_nodes the_context 440 0.8 0 studio)).
Defined.

(** ** [dispose] out of turn, and what it leaves alone *)

(** X11. For every voice on which [start] was never called, [dispose]
    throws a TypeError at its first line, where it reads [this.osc], and
    changes nothing. *)
Theorem dispose_before_start (c : ContextRef) (f m : Q) (out : nat)
    (h : BaseAudioContext) :
  dispose {| this := constructor c f m out; ctx := h |}
  = (Throw TypeError, {| this := constructor c f m out; ctx := h |}).
Proof. unfold dispose. apply bind_throw. reflexivity. Qed.

Lemma elem_of_without_sources (e : Connection) (ids : list nat)
    (cs : list Connection) :
  e ∈ without_sources ids cs <-> e ∈ cs /\ fst e ∉ ids.
Proof.
  unfold without_sources. revert cs.
  induction ids as [ | i ids IH ]; intros cs; cbn [foldl].
  - split; [ intros H; split; [ exact H | apply not_elem_of_nil ] | tauto ].
  - rewrite IH. split.
    + intros [Hf Hn].
      apply list_elem_of_In, filter_In in Hf as [Hin Hne].
      apply negb_true_iff, Nat.eqb_neq in Hne.
      split; [ by apply list_elem_of_In | ].
      apply not_elem_of_cons. by split.
    + intros [Hin Hn]. apply not_elem_of_cons in Hn as [Hne Hn].
      split; [ | exact Hn ].
      apply list_elem_of_In, filter_In. split; [ by apply list_elem_of_In | ].
      by apply negb_true_iff, Nat.eqb_neq.
Qed.

#[local] Instance Obj_inj : Inj eq eq Obj.
Proof. intros a b H. by injection H. Qed.

(** X12. For every voice that holds its nodes, [dispose] leaves the clock
    and every node of the store as they were, keeps the reference to the
    filter, and only removes connections: a connection is there afterwards
    exactly when it was there before and does not leave one of the eight
    nodes that [dispose] disconnects. *)
Theorem dispose_frame (w : World) :
  holds_nodes (this w) ->
  exists w1 : World,
    dispose w = (Normal tt, w1) /\
    currentTime (ctx w1) = currentTime (ctx w) /\
    nodes (ctx w1) = nodes (ctx w) /\
    lpFilter (this w1) = lpFilter (this w) /\
    forall e : Connection,
      e ∈ connections (ctx w1) <->
      e ∈ connections (ctx w) /\ Obj (fst e) ∉ disposed_fields (this w).
Proof.
  destruct w as [v h]. cbn [this ctx]. intros Hv.
  destruct (holds_nodes_ids v Hv)
    as (i1 & i2 & i3 & i4 & i5 & i6 & i7 & i8 & i9 & H1 & H2 & H3 & H4 & H5
        & H6 & H7 & H8 & H9).
  eexists. split; [ by eapply dispose_run | ].
  cbn [this ctx currentTime nodes connections lpFilter disposed].
  do 3 (split; [ reflexivity | ]).
  intros e. rewrite elem_of_without_sources.
  unfold disposed_fields. rewrite H1, H2, H3, H4, H5, H6, H7, H8.
  change [Obj i1; Obj i2; Obj i4; Obj i3; Obj i5; Obj i6; Obj i7; Obj i8]
    with (Obj <$> [i1; i2; i4; i3; i5; i6; i7; i8]).
  rewrite (list_elem_of_fmap_inj Obj). reflexivity.
Qed.

Lemma dispose_frame_witness :
  holds_nodes (this (after_start the_context 440 0.8 0 studio)) /\
  exists w1 : World,
    dispose (after_start the_context 440 0.8 0 studio) = (Normal tt, w1) /\
    (9%nat, ToNode 0) ∈ connections (ctx w1) /\
    ((1%nat, ToNode 6) ∉ connections (ctx w1)).
Proof.
  split; [ apply start_holds_nodes | ].
  destruct (dispose_frame (after_start the_context 440 0.8 0 studio)
              (start_holds_nodes the_context 440 0.8 0 studio))
    as (w1 & Hrun & _ & _ & _ & Hconn).
  exists w1. split; [ exact Hrun | ]. split.
  - apply Hconn. split; [ vm_compute; repeat constructor | ].
    vm_compute. intros Hin.
    repeat (apply elem_of_cons in Hin as [E | Hin]; [ discriminate E | ]).
    by apply elem_of_nil in Hin.
  - intros Hin. apply Hconn in Hin as [_ Hno]. apply Hno.
    vm_compute. repeat constructor.
Defined.

(** ** A whole life, and two voices on one sink *)

(** [start], [stop] and [dispose] in a row on a closed graph. *)
Lemma life_run (c : ContextRef) (f m : Q) (out : nat) (h : BaseAudioContext) :
  closed_graph h ->
  exists h3 : BaseAudioContext,
    (start;; stop;; dispose) {| this := constructor c f m out; ctx := h |}
    = (Normal tt,
       {| this := disposed (started_voice c f m out (length (nodes h)));
          ctx := h3 |}) /\
    currentTime h3 = currentTime h /\
    connections h3
    = connections h ++ [((length (nodes h) + 8)%nat, ToNode out)] /\
    length (nodes h3) = (length (nodes h) + 9)%nat /\
    forall id : nat, (id < length (nodes h))%nat ->
      nodes h3 !! id = nodes h !! id.
Proof.
  intros Hc. set (N := length (nodes h)).
  destruct (stop_run (this (after_start c f m out h))
              (ctx (after_start c f m out h)) (start_running c f m out h))
    as (e & i1 & i2 & i3 & i4 & n & p & h' & He & F1 & F2 & F3 & F4 & _ & _
        & Hstop & (HT & HC & HL & HF) & _).
  unfold after_start in He, F1, F2, F3, F4.
  cbn [this started_voice ampEnv osc osc2 osc3 ringModModulator]
    in He, F1, F2, F3, F4.
  injection He as <-. injection F1 as <-. injection F2 as <-.
  injection F3 as <-. injection F4 as <-. fold N in HF.
  exists {| currentTime := currentTime h'; nodes := nodes h';
            connections :=
              without_sources
                [N; (N + 1)%nat; (N + 3)%nat; (N + 2)%nat; (N + 4)%nat;
                 (N + 5)%nat; (N + 6)%nat; (N + 7)%nat] (connections h') |}.
  cbn [currentTime nodes connections].
  split.
  { eapply bind_step; [ apply start_run | cbv beta ].
    eapply bind_step; [ exact Hstop | cbv beta ].
    eapply dispose_run; reflexivity. }
  rewrite (start_graph c f m out h Hc) in HT, HC, HL, HF.
  cbn [currentTime nodes connections] in HT, HC, HL, HF.
  split; [ exact HT | ].
  split.
  { rewrite HC. fold N.
    rewrite without_sources_app, (without_sources_old h _ Hc)
      by (repeat constructor; fold N; lia).
    f_equal. unfold without_sources, voice_edges. cbn.
    decide_indices. reflexivity. }
  split; [ rewrite HL, length_app; reflexivity | ].
  intros id Hid. rewrite HF.
  - by apply lookup_app_l.
  - intros Hin.
    repeat (apply elem_of_cons in Hin as [E | Hin]; [ lia | ]).
    by apply elem_of_nil in Hin.
Qed.

(** X13. On every closed graph, a whole life of a voice ([start], [stop],
    [dispose]) completes normally; it leaves the clock where it was and
    every node that was there as it was; the eight references [dispose]
    clears are [null]; and the graph ends with exactly one connection more
    than before, from the filter to the sink. *)
Theorem whole_life (c : ContextRef) (f m : Q) (out : nat)
    (h : BaseAudioContext) :
  closed_graph h ->
  exists w3 : World,
    (start;; stop;; dispose) {| this := constructor c f m out; ctx := h |}
    = (Normal tt, w3) /\
    Forall (fun r => r = Null) (disposed_fields (this w3)) /\
    lpFilter (this w3) = Obj (length (nodes h) + 8) /\
    currentTime (ctx w3) = currentTime h /\
    connections (ctx w3)
    = connections h ++ [((length (nodes h) + 8)%nat, ToNode out)] /\
    forall id : nat, (id < length (nodes h))%nat ->
      nodes (ctx w3) !! id = nodes h !! id.
Proof.
  intros Hc.
  destruct (life_run c f m out h Hc) as (h3 & Hrun & HT & HC & _ & HF).
  eexists. split; [ exact Hrun | ]. cbn [this ctx].
  split; [ repeat constructor | ].
  split; [ reflexivity | ].
  split; [ exact HT | ]. split; [ exact HC | exact HF ].
Qed.

Lemma whole_life_witness :
  closed_graph studio /\
  exists w3 : World,
    (start;; stop;; dispose) scenario_A = (Normal tt, w3) /\
    connections (ctx w3) = [(9%nat, ToNode 0)] /\
    nodes (ctx w3) !! 0%nat = Some Sink.
Proof.
  split; [ exact studio_closed | ].
  destruct (whole_life the_context 440 0.8 0 studio studio_closed)
    as (w3 & Hrun & _ & _ & _ & HC & HF).
  exists w3. split; [ exact Hrun | ]. split; [ exact HC | ].
  rewrite HF; [ reflexivity | cbn; lia ].
Defined.

Lemma running_frame (v : Voice) (h h' : BaseAudioContext) :
  (forall id : nat, (id < length (nodes h))%nat ->
     nodes h' !! id = nodes h !! id) ->
  running {| this := v; ctx := h |} -> running {| this := v; ctx := h' |}.
Proof.
  intros HF (O1 & O2 & O3 & Om & Hp & Hrel).
  assert (Hosc : forall r P, osc_state h r P -> osc_state h' r P).
  { intros r P (i & o & Hr & Hi & Ho). exists i, o.
    split; [ exact Hr | ]. split; [ | exact Ho ].
    rewrite HF; [ exact Hi | by eapply lookup_lt_Some ]. }
  unfold running, started_oscillator in *. cbn [this ctx] in *.
  repeat (split; [ by apply Hosc | ]).
  split; [ | exact Hrel ].
  unfold param_of, node_of in *. cbn [ctx] in *.
  destruct (ampEnv v) as [ | | e ]; try exact Hp.
  destruct (nodes h !! e) as [ n | ] eqn:Hn;
    [ | destruct Hp as [x Hx]; discriminate Hx ].
  rewrite HF, Hn; [ exact Hp | by eapply lookup_lt_Some ].
Qed.

(** X14. Two voices on one sink.  On a closed graph whose sink is a node
    of the store, while a voice A is running, a whole life of a voice B on
    the same sink ([start], [stop], [dispose]) changes no node that was
    there when B started, the nine nodes of A included, and no outgoing
    connection of such a node; A is still running afterwards. *)
Theorem voices_isolated (cA cB : ContextRef) (fA mA fB mB : Q) (out : nat)
    (h : BaseAudioContext) :
  closed_graph h -> (out < length (nodes h))%nat ->
  exists wA wB : World,
    start {| this := constructor cA fA mA out; ctx := h |} = (Normal tt, wA) /\
    (start;; stop;; dispose)
      {| this := constructor cB fB mB out; ctx := ctx wA |}
    = (Normal tt, wB) /\
    (forall id : nat, (id < length (nodes (ctx wA)))%nat ->
       nodes (ctx wB) !! id = nodes (ctx wA) !! id /\
       successors (ctx wB) id = successors (ctx wA) id) /\
    running {| this := this wA; ctx := ctx wB |}.
Proof.
  intros Hc Hout.
  pose proof (start_keeps_closed cA fA mA out h Hc Hout) as HcA.
  destruct (life_run cB fB mB out _ HcA) as (h3 & Hrun & _ & HC & _ & HF).
  eexists (after_start cA fA mA out h), _.
  split; [ apply start_run | ]. split; [ exact Hrun | ].
  cbn [ctx this]. split.
  - intros id Hid. split; [ by apply HF | ].
    unfold successors. rewrite HC, List.filter_app, map_app.
    cbn [List.filter fst].
    rewrite (proj2 (Nat.eqb_neq _ id)) by lia. cbn [map negb].
    by rewrite app_nil_r.
  - apply (running_frame _ (ctx (after_start cA fA mA out h))); [ exact HF | ].
    apply start_running.
Qed.

Lemma voices_isolated_witness :
  closed_graph studio /\ (0 < length (nodes studio))%nat /\
  exists wA wB : World,
    start scenario_A = (Normal tt, wA) /\
    (start;; stop;; dispose)
      {| this := constructor the_context 220 0.5 0; ctx := ctx wA |}
    = (Normal tt, wB) /\
    successors (ctx wB) 9 = [ToNode 0] /\
    running {| this := this wA; ctx := ctx wB |}.
Proof.
  assert (Hl : (0 < length (nodes studio))%nat) by (cbn; lia).
  split; [ exact studio_closed | ]. split; [ exact Hl | ].
  destruct (voices_isolated the_context the_context 440 0.8 220 0.5 0 studio
              studio_closed Hl) as (wA & wB & HA & HB & Hframe & Hrun).
  exists wA, wB. split; [ exact HA | ]. split; [ exact HB | ].
  split; [ | exact Hrun ].
  unfold scenario_A in HA. rewrite start_run in HA. injection HA as <-.
  destruct (Hframe 9%nat) as [_ Hs]; [ vm_compute; lia | ].
  rewrite Hs. vm_compute. reflexivity.
Defined.
